(** * go-stf: the minicap capture session (minicap.go)

    A shallow embedding of [minicap.go]: the capture process supervisor
    ([minicapDaemon]), the frame stream reader ([jpgTcpSucker]) and the
    session coordinator ([STFCapturer]), with the properties of the
    specification stated and settled against it.

    Conventions of the embedding:
    - a Go [int] is a [Z] (no arithmetic in this file can overflow 64 bits);
    - a Go [error] value is an [option error], [None] being [nil];
    - a [[]byte] is a [list byte];
    - the remote device and the host network are a [World] that every
      operation threads through; what the program does to them is appended
      to the world's [log];
    - a [select] is driven by an explicit event: each background loop is a
      function of the list of events its [select] statements receive;
    - a [go] statement creates a task and returns: the task runs later, up
      to its first [select], where the first event finds it. *)

From Stdlib Require Import ZArith NArith List String Ascii Lia Bool.
From Stdlib Require Import DecimalString Strings.Byte Wellfounded.
From stdpp Require Import gmap strings list.
From Equations Require Import Equations.
Import ListNotations.

#[local] Set Warnings "-register-all".
Local Open Scope string_scope.
Local Open Scope list_scope.
Local Open Scope Z_scope.

(** ** Errors *)

(** [errors.New], [errors.Wrap] and the errors that come from outside the
    file.  [ErrExpectPID line] stands for
    [errors.New("expect PID: <pid> actually: " + strconv.Quote(line))]. *)
Inductive error : Type :=
| ErrNew (msg : string)
| ErrWrap (cause : error) (msg : string)
| ErrExpectPID (line : string)
| ErrEOF
| ErrUnexpectedEOF
| ErrExternal (msg : string)
| ErrAlreadyRunning
| ErrMulti (errs : list error).

(** [errors.Wrap(err, msg)]: [nil] stays [nil]. *)
Definition Wrap (err : option error) (msg : string) : option error :=
  match err with
  | None => None
  | Some e => Some (ErrWrap e msg)
  end.

(** What a call that may never return produces. *)
Inductive outcome : Type :=
| Returned (err : option error)
| Blocked.

(** ** Lifecycle plumbing *)

(** Modelled from the spec: [errorMixin] and [safeMixin] are embedded in
    both components but declared outside this file.  Per the spec a
    component carries a stored terminal error, which [Wait] reports once
    the background task has ended ([terminal], [None] while it has not),
    and a guard under which only one of Start and Stop is in flight at a
    time ([inflight]). *)
Record mixins : Type := mkMixins {
  inflight : bool;
  terminal : option (option error)
}.

(** Modelled from the spec: [resetError], called when a component starts,
    forgets the terminal error of the previous run. *)
Definition resetError (x : mixins) : mixins := mkMixins (inflight x) None.

(** Modelled from the spec: [doneError], called when the background task
    ends, stores its terminal error. *)
Definition doneError (e : option error) (x : mixins) : mixins :=
  mkMixins (inflight x) (Some e).

(** Modelled from the spec: [Wait] blocks until the background task has
    ended and returns its terminal error. *)
Definition Wait (x : mixins) : outcome :=
  match terminal x with
  | Some e => Returned e
  | None => Blocked
  end.

(** ** The device agent and the host, as a world *)

(** [adb.ForwardSpec{Protocol, PortOrName}]; [FProtocolNone] is the zero
    value of the protocol field. *)
Inductive ForwardProtocol : Type :=
| FProtocolNone
| FProtocolTcp
| FProtocolAbstract.

Record ForwardSpec : Type := mkForwardSpec {
  Protocol : ForwardProtocol;
  PortOrName : string
}.

(** What the program does to the device and to the host: the entries of
    the world's log. *)
Inductive action : Type :=
| ActKillProc (psName : string)
| ActProbe (binaryPath : string)
| ActPush (dst : string) (perms : Z) (url : string)
| ActLaunch (binaryPath : string) (param : string)
| ActForward (spec : ForwardSpec)
| ActDial (port : Z)
| ActTimer (ms : Z)
| ActSleep (ms : Z)
| ActCloseConn
| ActPanic.

(** The decoded answer of [minicap -i]; the [float32] fields of
    [minicapInfo] (xdpi, ydpi, size, density, fps) are never read by the
    program and are left out. *)
Record minicapInfo : Type := mkInfo {
  Id : Z;
  Width : Z;
  Height : Z;
  Secure : bool;
  Rotation : Z
}.

Definition zeroInfo : minicapInfo := mkInfo 0 0 0 false 0.

(** The result of [RunCommand(..., "-i")] followed by [json.Unmarshal]. *)
Inductive probe_result : Type :=
| ProbeRunErr (e : error)
| ProbeBadJson (partial : minicapInfo) (e : error)
| ProbeOk (mi : minicapInfo).

(** The world.
    - [files]: the remote paths that exist ([Stat] succeeds on them);
    - [props]: the device properties, [None] when [Properties()] fails;
    - [probes]: the answers the next runs of [minicap -i] will give;
    - [push_result url]: the error of pushing the artifact at [url];
    - [forward_result spec]: what [ForwardToFreePort(spec)] returns;
    - [bufSpare n]: what the allocator gives a fresh [bytes.Buffer] that
      [io.Copy] has put [n] bytes into, on top of the [bytes.MinRead] cells
      that the copy always leaves free (see [Reader.Bytes]);
    - [log]: the actions performed so far, oldest first. *)
Record World : Type := mkWorld {
  files : gset string;
  props : option (gmap string string);
  probes : list probe_result;
  push_result : string -> option error;
  forward_result : ForwardSpec -> Z * option error;
  bufSpare : nat -> nat;
  log : list action
}.

(** The world after one more action. *)
Definition do (a : action) (w : World) : World :=
  mkWorld (files w) (props w) (probes w) (push_result w) (forward_result w)
          (bufSpare w) (log w ++ [a]).

Definition with_files (fs : gset string) (w : World) : World :=
  mkWorld fs (props w) (probes w) (push_result w) (forward_result w)
          (bufSpare w) (log w).

Definition with_probes (ps : list probe_result) (w : World) : World :=
  mkWorld (files w) (props w) ps (push_result w) (forward_result w)
          (bufSpare w) (log w).

(** Case analysis that keeps the equation, for the recursive definitions. *)
Definition inspect {A : Type} (x : A) : { y : A | x = y } :=
  exist _ x eq_refl.

(** A small state monad over the world. *)
Definition M (A : Type) : Type := World -> A * World.

Definition ret {A} (a : A) : M A := fun w => (a, w).

Definition bind {A B} (c : M A) (k : A -> M B) : M B :=
  fun w => let '(a, w') := c w in k a w'.

Definition act (a : action) : M unit := fun w => (tt, do a w).

Notation "'let*' x ':=' c 'in' k" := (bind c (fun x => k))
  (at level 10, x pattern, c at level 100, k at level 200).

(** Modelled from the spec: [safeDo] of [safeMixin] fails fast with
    AlreadyRunning when a start or stop is already in flight, and runs the
    action under the guard otherwise.  An action that never returns leaves
    the guard taken. *)
Definition safeDo {S : Type} (get : S -> mixins) (set : mixins -> S -> S)
    (f : S -> M (S * outcome)) (s : S) : M (S * outcome) :=
  if inflight (get s) then ret (s, Returned (Some ErrAlreadyRunning))
  else
    let* (s, o) := f (set (mkMixins true (terminal (get s))) s) in
    match o with
    | Returned e => ret (set (mkMixins false (terminal (get s))) s, o)
    | Blocked => ret (s, Blocked)
    end.

(** ** Capture process supervisor *)

Module Supervisor.

Definition QUALITY_1080P : Z := 1.
Definition QUALITY_720P : Z := 2.
Definition QUALITY_480P : Z := 3.
Definition QUALITY_240P : Z := 4.

(** The local variables of [runScreenCaptureWithRotate] while its control
    loop waits at the [select]. *)
Record loop_state : Type := mkLoop {
  needRestart : bool;
  err : option error
}.

(** [minicapDaemon].  [quitC] is [None] for a nil channel and [Some k] for
    a channel of capacity 1 that holds [k] values.  [rotationC] is
    unbuffered: a send on it completes only when the control loop receives
    it, so it has no state of its own.  [spawned] and [loop] are the
    background task: [spawned] holds from the [go] statement that creates
    the task until the task first runs, and [loop] is [Some st] while the
    control loop is alive and waiting at its [select].  The model keeps one
    control loop per daemon. *)
Record minicapDaemon : Type := mkDaemon {
  width : Z;
  height : Z;
  maxWidth : Z;
  maxHeight : Z;
  rotation : Z;
  quitC : option nat;
  binaryPath : string;
  mix : mixins;
  spawned : bool;
  loop : option loop_state
}.

Definition newMinicapDaemon : minicapDaemon :=
  {| width := 0; height := 0;
     maxWidth := 720; maxHeight := 720;
     rotation := 0; quitC := None; binaryPath := "";
     mix := mkMixins false None; spawned := false; loop := None |}.

Definition set_maxHeight (v : Z) (m : minicapDaemon) : minicapDaemon :=
  mkDaemon (width m) (height m) (maxWidth m) v (rotation m) (quitC m)
           (binaryPath m) (mix m) (spawned m) (loop m).

Definition set_rotation (r : Z) (m : minicapDaemon) : minicapDaemon :=
  mkDaemon (width m) (height m) (maxWidth m) (maxHeight m) r (quitC m)
           (binaryPath m) (mix m) (spawned m) (loop m).

Definition set_binaryPath (p : string) (m : minicapDaemon) : minicapDaemon :=
  mkDaemon (width m) (height m) (maxWidth m) (maxHeight m) (rotation m)
           (quitC m) p (mix m) (spawned m) (loop m).

Definition set_quitC (q : option nat) (m : minicapDaemon) : minicapDaemon :=
  mkDaemon (width m) (height m) (maxWidth m) (maxHeight m) (rotation m)
           q (binaryPath m) (mix m) (spawned m) (loop m).

Definition set_mix (x : mixins) (m : minicapDaemon) : minicapDaemon :=
  mkDaemon (width m) (height m) (maxWidth m) (maxHeight m) (rotation m)
           (quitC m) (binaryPath m) x (spawned m) (loop m).

(** Where the task is once it has run: waiting at its [select] with the
    locals [st], or over ([None]). *)
Definition set_loop (l : option loop_state) (m : minicapDaemon)
  : minicapDaemon :=
  mkDaemon (width m) (height m) (maxWidth m) (maxHeight m) (rotation m)
           (quitC m) (binaryPath m) (mix m) false l.

(** A [go] statement: the task is created, and runs when the scheduler
    picks it. *)
Definition spawn (m : minicapDaemon) : minicapDaemon :=
  mkDaemon (width m) (height m) (maxWidth m) (maxHeight m) (rotation m)
           (quitC m) (binaryPath m) (mix m) true None.

(** [m.width = minfo.Width; m.height = minfo.Height;
    m.rotation = minfo.Rotation] of [Start]. *)
Definition set_info (mi : minicapInfo) (m : minicapDaemon) : minicapDaemon :=
  mkDaemon (Width mi) (Height mi) (maxWidth m) (maxHeight m) (Rotation mi)
           (quitC m) (binaryPath m) (mix m) (spawned m) (loop m).

(** *** Killing stray instances *)

(** [killProc] lists the processes of that name and sends each the signal;
    the listing and its parsing happen on the device and are recorded as
    one action. *)
Definition killProc (psName : string) : M unit := act (ActKillProc psName).

Definition killMinicap : M unit :=
  let* _ := killProc "minicap" in killProc "slow-minicap".

(** *** Provisioning and probe *)

(** [isRemoteExists]: [Stat] returns no error. *)
Definition isRemoteExists (path : string) : M bool :=
  fun w => (bool_decide (path ∈ files w), w).

(** Modelled from the spec: [AdbFileExists] is declared outside this file;
    per the spec it tells whether the file already exists remotely. *)
Definition AdbFileExists (path : string) : M bool :=
  fun w => (bool_decide (path ∈ files w), w).

(** Modelled from the spec: [PushFileFromHTTP] is declared outside this
    file; per the spec it fetches the artifact from the artifact host and
    pushes it to the remote path with the given permissions.  A push that
    succeeds makes the file exist. *)
Definition PushFileFromHTTP (dst : string) (perms : Z) (urlStr : string)
  : M (option error) :=
  fun w =>
    let w := do (ActPush dst perms urlStr) w in
    match push_result w urlStr with
    | Some e => (Some e, w)
    | None => (None, with_files ({[dst]} ∪ files w) w)
    end.

(** The file modes [0644] and [0755]. *)
Definition perm_0644 : Z := 6 * 64 + 4 * 8 + 4.
Definition perm_0755 : Z := 7 * 64 + 5 * 8 + 5.

Definition baseUrl : string := "https://gohttp.nie.netease.com/openstf/vendor".

(** The [for _, filename := range ...] loop of [pushFiles]. *)
Fixpoint pushEach (abi sdk : string) (filenames : list string)
  : M (option error) :=
  match filenames with
  | [] => ret None
  | filename :: rest =>
      let dst := "/data/local/tmp/" +:+ filename in
      let* present := AdbFileExists dst in
      if present then pushEach abi sdk rest
      else
        let perms_url :=
          if String.eqb filename "minicap.so" then
            (perm_0644,
             baseUrl +:+ "/minicap/shared/android-" +:+ sdk +:+ "/" +:+ abi
                     +:+ "/minicap.so")
          else
            (perm_0755, baseUrl +:+ "/minicap/bin/" +:+ abi +:+ "/minicap") in
        let* err := PushFileFromHTTP dst (fst perms_url) (snd perms_url) in
        match err with
        | Some e => ret (Some e)
        | None => pushEach abi sdk rest
        end
  end.

Definition propertiesError : error := ErrExternal "device properties".

Definition pushFiles : M (option error) :=
  fun w =>
    match props w with
    | None => (Some propertiesError, w)
    | Some p =>
        match p !! "ro.product.cpu.abi" with
        | None => (Some (ErrNew "No ro.product.cpu.abi propery"), w)
        | Some abi =>
            match p !! "ro.build.version.sdk" with
            | None => (Some (ErrNew "No ro.build.version.sdk propery"), w)
            | Some sdk => pushEach abi sdk ["minicap.so"; "minicap"] w
            end
        end
    end.

(** [RunCommand("LD_LIBRARY_PATH=/data/local/tmp", binaryPath, "-i")] and
    the decoding of its output: the next answer of the device. *)
Definition runInfo (path : string) : M probe_result :=
  fun w =>
    let w := do (ActProbe path) w in
    match probes w with
    | [] => (ProbeRunErr (ErrExternal "no answer"), w)
    | r :: rest => (r, with_probes rest w)
    end.

Definition slowCap : string := "/data/local/tmp/slow-minicap".
Definition fastCap : string := "/data/local/tmp/minicap".

Definition prepare (m : minicapDaemon)
  : M (minicapDaemon * minicapInfo * option error) :=
  let* slow := isRemoteExists slowCap in
  let* (m, err) :=
    if slow then ret (set_binaryPath slowCap m, None)
    else
      let m := set_binaryPath fastCap m in
      let* err := pushFiles in ret (m, err) in
  match err with
  | Some e => ret (m, zeroInfo, Some e)
  | None =>
      let* out := runInfo (binaryPath m) in
      match out with
      | ProbeRunErr e => ret (m, zeroInfo, Wrap (Some e) "run minicap -i")
      | ProbeBadJson mi e => ret (m, mi, Some e)
      | ProbeOk mi => ret (m, mi, None)
      end
  end.

(** The loop of [prepareSafe], entered with counter [n]. *)
Equations? prepareSafeFrom (n : Z) (m : minicapDaemon) (w : World)
  : (minicapDaemon * minicapInfo * option error) * World
  by wf (Z.to_nat (3 - n)) lt :=
  prepareSafeFrom n m w with inspect (prepare m w) => {
    | exist _ ((m', mi, None), w') _ => ((m', mi, None), w');
    | exist _ ((m', mi, Some e), w') _ with inspect (n >=? 3) => {
        | exist _ true _ => ((m', mi, Some e), w');
        | exist _ false _ =>
            prepareSafeFrom (n + 1) m'
              (do (ActSleep 100) (snd (killMinicap w'))) } }.
Proof. lia. Qed.

Definition prepareSafe (m : minicapDaemon)
  : M (minicapDaemon * minicapInfo * option error) :=
  prepareSafeFrom 0 m.

(** *** Geometry mutators *)

(** [SetQuality]: the new struct and the value sent on [rotationC] ([None]
    on the [default: return] path).  Each case is the tuple assignment
    [m.maxHeight, m.maxHeight = v, v] of the source: both targets are
    [maxHeight], assigned left to right. *)
Definition SetQuality (m : minicapDaemon) (quality : Z)
  : minicapDaemon * option Z :=
  if quality =? QUALITY_1080P then
    let m := set_maxHeight 1080 (set_maxHeight 1080 m) in (m, Some (rotation m))
  else if quality =? QUALITY_720P then
    let m := set_maxHeight 720 (set_maxHeight 720 m) in (m, Some (rotation m))
  else if quality =? QUALITY_480P then
    let m := set_maxHeight 480 (set_maxHeight 480 m) in (m, Some (rotation m))
  else if quality =? QUALITY_240P then
    let m := set_maxHeight 240 (set_maxHeight 240 m) in (m, Some (rotation m))
  else (m, None).

(** Which case of the [select] of [SetRotation] fires: the send is
    received, or the 100 ms timer expires first. *)
Inductive send_select : Type :=
| SendReceived
| After100ms.

(** [SetRotation]: the struct (untouched) and the value the control loop
    receives, if any. *)
Definition SetRotation (m : minicapDaemon) (r : Z) (sel : send_select)
  : minicapDaemon * option Z :=
  match sel with
  | SendReceived => (m, Some r)
  | After100ms => (m, None)
  end.

(** *** Launch and watch *)

(** [%d] of [fmt.Sprintf]. *)
Definition fmt_d (z : Z) : string := NilZero.string_of_int (Z.to_int z).

(** [fmt.Sprintf("%dx%d@%dx%d/%d", m.width, m.height, m.maxWidth,
    m.maxHeight, m.rotation)]. *)
Definition launchParam (m : minicapDaemon) : string :=
  fmt_d (width m) +:+ "x" +:+ fmt_d (height m) +:+ "@" +:+
  fmt_d (maxWidth m) +:+ "x" +:+ fmt_d (maxHeight m) +:+ "/" +:+
  fmt_d (rotation m).

(** [strings.Contains]. *)
Fixpoint Contains (s substr : string) : bool :=
  String.prefix substr s ||
  match s with
  | EmptyString => false
  | String _ s' => Contains s' substr
  end.

(** What the launched process gives back: [OpenCommand] fails, or it opens
    a control stream on which successive [ReadLine] calls return [lines]
    and then fail with [readErr]. *)
Inductive command_output : Type :=
| OpenFailed (e : error)
| Stream (lines : list string) (readErr : error).

(** The [for] loop that ends [runScreenCapture]: read lines until an
    error. *)
Fixpoint readUntilError (lines : list string) (readErr : error) : error :=
  match lines with
  | [] => readErr
  | _ :: lines' => readUntilError lines' readErr
  end.

(** [runScreenCapture], first half: build the parameter string and open
    the command. *)
Definition launch (m : minicapDaemon) : M unit :=
  act (ActLaunch (binaryPath m) (launchParam m)).

(** [runScreenCapture], second half: the result of watching the control
    stream. *)
Definition watch (out : command_output) : option error :=
  match out with
  | OpenFailed e => Some e
  | Stream [] readErr => Some readErr
  | Stream (line :: rest) readErr =>
      if negb (Contains line "PID:") then
        Wrap (Some (ErrExpectPID line)) "run minicap"
      else
        let _ := readUntilError rest readErr in
        Some (ErrNew "minicap quit")
  end.

Definition runScreenCapture (m : minicapDaemon) (out : command_output)
  : M (option error) :=
  let* _ := launch m in ret (watch out).

(** *** The control loop *)

(** The three cases of the [select] of [runScreenCaptureWithRotate]:
    the watch of the launched process completes (with what the process
    gave back), a rotation arrives, a stop arrives. *)
Inductive loop_event : Type :=
| EvErrC (out : command_output)
| EvRotationC (r : Z)
| EvQuitC.

(** The deferred [m.doneError(errors.Wrap(err, "minicap"))]: the task is
    over. *)
Definition finish (err : option error) (m : minicapDaemon) : minicapDaemon :=
  set_loop None (set_mix (doneError (Wrap err "minicap") (mix m)) m).

(** One pass of the [for { select { ... } }] of
    [runScreenCaptureWithRotate], for a loop waiting with locals [st].
    [GoFunc(m.runScreenCapture)] launches at once; the result of its watch
    is a later [EvErrC]. *)
Definition loopStep (ev : loop_event) (st : loop_state) (m : minicapDaemon)
  : M minicapDaemon :=
  match ev with
  | EvErrC out =>
      let err := watch out in
      if negb (needRestart st) then ret (finish err m)
      else
        let* _ := launch m in
        ret (set_loop (Some (mkLoop false None)) m)
  | EvRotationC r =>
      let m := set_rotation r m in
      let* _ := killMinicap in
      ret (set_loop (Some (mkLoop true (err st))) m)
  | EvQuitC =>
      let m := set_quitC (option_map Nat.pred (quitC m)) m in
      let* _ := killMinicap in
      ret (finish (err st) m)
  end.

(** [runScreenCaptureWithRotate] up to its first [select]: what the task
    does when it first runs. *)
Definition runScreenCaptureWithRotate (m : minicapDaemon) : M minicapDaemon :=
  let* _ := killMinicap in
  let* _ := launch m in
  ret (set_loop (Some (mkLoop false None)) m).

(** An event reaches the loop only while the loop is alive.  A task that
    was created and has not run yet runs first, up to its [select], where
    it finds the event. *)
Definition handle (ev : loop_event) (m : minicapDaemon) : M minicapDaemon :=
  match loop m with
  | Some st => loopStep ev st m
  | None =>
      if spawned m then
        let* m := runScreenCaptureWithRotate m in
        loopStep ev (mkLoop false None) m
      else ret m
  end.

(** The control loop over the events it receives, in order. *)
Fixpoint handleAll (evs : list loop_event) (m : minicapDaemon)
  : M minicapDaemon :=
  match evs with
  | [] => ret m
  | ev :: evs' => let* m := handle ev m in handleAll evs' m
  end.

(** A [SetQuality] call: the struct is updated, and the send on the
    unbuffered [rotationC] completes when the loop receives it; with no
    control loop, alive or about to run, the call never returns. *)
Definition callSetQuality (quality : Z) (m : minicapDaemon)
  : M (minicapDaemon * outcome) :=
  let (m, sent) := SetQuality m quality in
  match sent with
  | None => ret (m, Returned None)
  | Some r =>
      match loop m, spawned m with
      | None, false => ret (m, Blocked)
      | _, _ => let* m := handle (EvRotationC r) m in ret (m, Returned None)
      end
  end.

(** A [SetRotation] call. *)
Definition callSetRotation (r : Z) (sel : send_select) (m : minicapDaemon)
  : M minicapDaemon :=
  let (m, sent) := SetRotation m r sel in
  match sent with
  | Some r => handle (EvRotationC r) m
  | None => ret m
  end.

(** *** Start and Stop *)

(** [Start]; the [go m.runScreenCaptureWithRotate()] that ends it creates
    the task and returns. *)
Definition Start (m : minicapDaemon) : M (minicapDaemon * outcome) :=
  safeDo mix set_mix
    (fun m =>
       let m := set_mix (resetError (mix m)) m in
       let m := set_quitC (Some 0%nat) m in
       let* _ := killMinicap in
       let* (m, minfo, err) := prepareSafe m in
       match err with
       | Some e => ret (m, Returned (Wrap (Some e) "prepare minicap"))
       | None =>
           let m := set_info minfo m in
           ret (spawn m, Returned None)
       end) m.

(** [m.quitC <- true]: blocks on a nil or full channel. *)
Definition sendQuit (q : option nat) : option nat :=
  match q with
  | None => None
  | Some k => if (k <? 1)%nat then Some (S k) else None
  end.

(** [Stop]: the value sent on [quitC] reaches the control loop if it is
    alive or about to run, and stays in the channel otherwise. *)
Definition Stop (m : minicapDaemon) : M (minicapDaemon * outcome) :=
  safeDo mix set_mix
    (fun m =>
       match sendQuit (quitC m) with
       | None => ret (m, Blocked)
       | Some k =>
           let m := set_quitC (Some k) m in
           let* m := handle EvQuitC m in
           ret (m, Wait (mix m))
       end) m.

(** The parameter strings of the launches recorded in a log. *)
Definition launches (l : list action) : list string :=
  flat_map (fun a => match a with ActLaunch _ p => [p] | _ => [] end) l.

(** The pushes recorded in a log. *)
Definition pushes (l : list action) : list action :=
  List.filter (fun a => match a with ActPush _ _ _ => true | _ => false end) l.

End Supervisor.

(** ** Frame stream reader *)

Module Reader.

(** *** The wire *)

(** The read side of a dialled connection: the bytes that arrive, then the
    error every further read fails with ([ErrEOF] when the peer closes). *)
Record Conn : Type := mkConn {
  incoming : list byte;
  readErr : error
}.

Inductive dial_result : Type :=
| DialFailed (e : error)
| Dialed (c : Conn).

(** [io.ReadFull] of [n] bytes, as [binary.Read] does for a fixed-size
    value: all [n] bytes, or [io.EOF] when none arrived before an end of
    file, [io.ErrUnexpectedEOF] when some did, the read error otherwise. *)
Definition readFull (n : nat) (c : Conn) : (list byte + error) * Conn :=
  if (n <=? length (incoming c))%nat then
    (inl (take n (incoming c)), mkConn (drop n (incoming c)) (readErr c))
  else
    (inr match incoming c, readErr c with
         | _ :: _, ErrEOF => ErrUnexpectedEOF
         | _, e => e
         end,
     mkConn [] (readErr c)).

(** [errorBinaryReader]: a reader with a sticky error. *)
Record errorBinaryReader : Type := mkBinRd {
  rd : Conn;
  err : option error
}.

(** The [for _, data := range datas] loop of [ReadInto], for values of the
    given byte widths; the values read come back in order. *)
Fixpoint readEach (widths : list nat) (r : errorBinaryReader)
  : list (list byte) * errorBinaryReader :=
  match widths with
  | [] => ([], r)
  | n :: widths' =>
      match readFull n (rd r) with
      | (inr e, c) => ([], mkBinRd c (Some e))
      | (inl bs, c) =>
          let (vs, r') := readEach widths' (mkBinRd c None) in
          (bs :: vs, r')
      end
  end.

Definition ReadInto (widths : list nat) (r : errorBinaryReader)
  : list (list byte) * errorBinaryReader :=
  match err r with
  | Some _ => ([], r)
  | None => readEach widths r
  end.

(** [binary.LittleEndian] decoding of an unsigned integer. *)
Definition littleEndian (bs : list byte) : N :=
  fold_right (fun b acc => (Byte.to_N b + 256 * acc)%N) 0%N bs.

(** [io.Copy(buf, &io.LimitedReader{rd, int64(size)})]: up to [size]
    bytes go into the buffer; an end of file is not an error for
    [io.Copy]. *)
Definition copyLimited (size : N) (c : Conn)
  : list byte * option error * Conn :=
  let n := N.to_nat size in
  if (n <=? length (incoming c))%nat then
    (take n (incoming c), None, mkConn (drop n (incoming c)) (readErr c))
  else
    (incoming c,
     match readErr c with ErrEOF => None | e => Some e end,
     mkConn [] (readErr c)).

(** A Go slice: its elements, and the cells of its backing array between
    its length and its capacity. *)
Record slice : Type := mkSlice {
  elems : list byte;
  spare : list byte
}.

(** [bytes.MinRead]. *)
Definition MinRead : nat := 512.

(** [buf.Bytes()] after the copy of a payload into a fresh buffer.
    [io.Copy] hands the copy to [Buffer.ReadFrom], which before every
    [Read] grows the buffer until [MinRead] cells are free behind its
    content, and which returns on a [Read] that delivers no byte: those
    cells are still free when the copy is over.  What the allocator rounds
    up on top of them is [spareCap].  Go zeroes what it allocates, so the
    free cells of the fresh buffer hold zero bytes. *)
Definition Bytes (spareCap : nat -> nat) (payload : list byte) : slice :=
  mkSlice payload (replicate (MinRead + spareCap (length payload)) x00).

(** The slice expression [s[:n]]: Go checks [n] against the capacity, not
    the length; [None] is the run-time panic. *)
Definition sliceTo (n : nat) (s : slice) : option (list byte) :=
  if (n <=? length (elems s) + length (spare s))%nat then
    Some (take n (elems s ++ spare s))
  else None.

(** The comparison of [string(p)] with the two bytes ff d8. *)
Definition isJpegMarker (p : list byte) : bool :=
  match p with
  | [b0; b1] => Byte.eqb b0 xff && Byte.eqb b1 xd8
  | _ => false
  end.

(** The frame queue [C]: a channel of capacity 3, oldest frame first. *)
Definition queueCap : nat := 3.

(** [select { case s.C <- buf.Bytes(): default: }]. *)
Definition trySend (q : list (list byte)) (frame : list byte)
  : list (list byte) :=
  if (length q <? queueCap)%nat then q ++ [frame] else q.

(** How [readFromTcp] ends: with the error it returns, or in the run-time
    panic of an out-of-range slice expression. *)
Inductive read_end : Type :=
| EndErr (e : error)
| EndPanic.

Definition jpegFormatError : error :=
  ErrNew "jpeg format error, not starts with 0xff,0xd8".

(** One pass of the frame loop of [readFromTcp], up to the delivery. *)
Inductive frame_result : Type :=
| FrameEnd (e : read_end)
| FrameOk (frame : list byte) (r : errorBinaryReader).

Definition nextFrame (spareCap : nat -> nat) (r : errorBinaryReader)
  : frame_result :=
  let (values, r) := ReadInto [4%nat] r in
  match err r with
  | Some e => FrameEnd (EndErr e)
  | None =>
      let size := littleEndian (hd [] values) in
      let '(payload, cerr, c) := copyLimited size (rd r) in
      match cerr with
      | Some e => FrameEnd (EndErr e)
      | None =>
          match sliceTo 2 (Bytes spareCap payload) with
          | None => FrameEnd EndPanic
          | Some p =>
              if negb (isJpegMarker p) then FrameEnd (EndErr jpegFormatError)
              else FrameOk payload (mkBinRd c None)
          end
      end
  end.

Lemma readFull_inl n c bs c' :
  readFull n c = (inl bs, c') ->
  length bs = n /\ incoming c = bs ++ incoming c' /\ readErr c' = readErr c.
Proof.
  unfold readFull.
  destruct (n <=? length (incoming c))%nat eqn:E; [|discriminate].
  intros [= <- <-]. apply Nat.leb_le in E. cbn.
  rewrite length_take, take_drop. split; [lia|auto].
Qed.

Lemma nextFrame_shorter spareCap r frame r' :
  nextFrame spareCap r = FrameOk frame r' ->
  (length (incoming (rd r')) < length (incoming (rd r)))%nat.
Proof.
  unfold nextFrame, ReadInto.
  destruct (err r) eqn:Er; cbn.
  { rewrite Er. discriminate. }
  destruct (readFull 4 (rd r)) as [[bs|e] c] eqn:Ef; cbn; [|discriminate].
  apply readFull_inl in Ef as (Hl & Hi & _).
  unfold copyLimited.
  destruct (_ <=? _)%nat eqn:E.
  - destruct (sliceTo _ _); [|discriminate].
    destruct (negb _); [discriminate|]. intros [= _ <-]. cbn.
    rewrite Hi, length_app, length_drop. lia.
  - destruct (readErr c); try discriminate.
    destruct (sliceTo _ _); [|discriminate].
    destruct (negb _); [discriminate|]. intros [= _ <-]. cbn.
    rewrite Hi, length_app. lia.
Qed.

(** The [for] loop of [readFromTcp].  Before each delivery the consumer may
    have taken frames off the queue: [drains] gives how many, pass by pass
    (none once the list is used up). *)
Equations? frameLoop (spareCap : nat -> nat) (drains : list nat)
    (q : list (list byte)) (r : errorBinaryReader)
  : list (list byte) * read_end
  by wf (length (incoming (rd r))) lt :=
  frameLoop spareCap drains q r with inspect (nextFrame spareCap r) => {
    | exist _ (FrameEnd e) _ => (q, e);
    | exist _ (FrameOk frame r') _ =>
        frameLoop spareCap (tl drains)
                  (trySend (drop (hd 0%nat drains) q) frame) r' }.
Proof. eapply nextFrame_shorter; eauto. Qed.

(** The widths of the preamble: version, unused, pid, rw, rh, vw, vh,
    orientation, quirkFlag. *)
Definition preamble : list nat := [1; 1; 4; 4; 4; 4; 4; 1; 1]%nat.

(** *** The reader and its background task *)

(** Where [keepReadFromTcp] waits: at its first [select], for the result
    of [readFromTcp], or at its second, for the 500 ms timer. *)
Inductive wait_point : Type :=
| WaitRead
| WaitTimer.

(** The local variables of [keepReadFromTcp] while it waits. *)
Record loop_state : Type := mkLoop {
  leftRetry : Z;
  waiting : wait_point;
  lastErr : option error
}.

(** [jpgTcpSucker].  [conn] tells whether the field holds a connection;
    [quitC] is as in the supervisor; [C] is the content of the frame
    queue; [spawned] and [loop] are the background task, as in the
    supervisor. *)
Record jpgTcpSucker : Type := mkSucker {
  port : Z;
  conn : bool;
  quitC : option nat;
  C : list (list byte);
  forwardSpec : ForwardSpec;
  mix : mixins;
  spawned : bool;
  loop : option loop_state
}.

Definition newSucker : jpgTcpSucker :=
  {| port := 0; conn := false; quitC := None; C := [];
     forwardSpec := mkForwardSpec FProtocolNone "";
     mix := mkMixins false None; spawned := false; loop := None |}.

Definition set_port (p : Z) (s : jpgTcpSucker) : jpgTcpSucker :=
  mkSucker p (conn s) (quitC s) (C s) (forwardSpec s) (mix s)
           (spawned s) (loop s).

Definition set_conn (b : bool) (s : jpgTcpSucker) : jpgTcpSucker :=
  mkSucker (port s) b (quitC s) (C s) (forwardSpec s) (mix s)
           (spawned s) (loop s).

Definition set_quitC (q : option nat) (s : jpgTcpSucker) : jpgTcpSucker :=
  mkSucker (port s) (conn s) q (C s) (forwardSpec s) (mix s)
           (spawned s) (loop s).

Definition set_C (q : list (list byte)) (s : jpgTcpSucker) : jpgTcpSucker :=
  mkSucker (port s) (conn s) (quitC s) q (forwardSpec s) (mix s)
           (spawned s) (loop s).

Definition set_forwardSpec (f : ForwardSpec) (s : jpgTcpSucker)
  : jpgTcpSucker :=
  mkSucker (port s) (conn s) (quitC s) (C s) f (mix s) (spawned s)
           (loop s).

Definition set_mix (x : mixins) (s : jpgTcpSucker) : jpgTcpSucker :=
  mkSucker (port s) (conn s) (quitC s) (C s) (forwardSpec s) x (spawned s)
           (loop s).

(** Where the task is once it has run. *)
Definition set_loop (l : option loop_state) (s : jpgTcpSucker)
  : jpgTcpSucker :=
  mkSucker (port s) (conn s) (quitC s) (C s) (forwardSpec s) (mix s)
           false l.

(** A [go] statement: the task is created, and runs when the scheduler
    picks it. *)
Definition spawn (s : jpgTcpSucker) : jpgTcpSucker :=
  mkSucker (port s) (conn s) (quitC s) (C s) (forwardSpec s) (mix s)
           true None.

(** [readFromTcp], first half: the dial. *)
Definition dial (s : jpgTcpSucker) : M unit := act (ActDial (port s)).

(** [readFromTcp], second half: what follows the dial, given its result
    and the consumer's behaviour while the connection lasts. *)
Definition readDialed (spareCap : nat -> nat) (d : dial_result)
    (drains : list nat) (s : jpgTcpSucker) : jpgTcpSucker * read_end :=
  match d with
  | DialFailed e => (s, EndErr e)
  | Dialed c =>
      let s := set_conn true s in
      let (_, r) := ReadInto preamble (mkBinRd c None) in
      match err r with
      | Some e => (s, EndErr e)
      | None =>
          let (q, e) := frameLoop spareCap drains (C s) r in
          (set_C q s, e)
      end
  end.

Definition readFromTcp (d : dial_result) (drains : list nat)
    (s : jpgTcpSucker) : M (jpgTcpSucker * read_end) :=
  let* _ := dial s in
  fun w => (readDialed (bufSpare w) d drains s, w).

(** The cases of the two [select]s of [keepReadFromTcp]: the read task
    returns (given how its dial went and what the consumer did), the timer
    fires, a stop arrives. *)
Inductive loop_event : Type :=
| EvReadDone (d : dial_result) (drains : list nat)
| EvTimer
| EvQuitC.

(** The deferred [s.doneError(errors.Wrap(err, "readFromTcp"))]. *)
Definition finish (err : option error) (s : jpgTcpSucker) : jpgTcpSucker :=
  set_loop None (set_mix (doneError (Wrap err "readFromTcp") (mix s)) s).

Definition maxRetryError : error := ErrNew "jpgTcpSucker reach max retry(10)".

(** One step of the [for] loop of [keepReadFromTcp], for a task waiting
    with locals [st].  [GoFunc(s.readFromTcp)] dials at once; its result is
    a later [EvReadDone], and what the read task did meanwhile (the
    connection it stored, the frames it delivered) is accounted for when
    that result is received.  A panic in the read task takes the program
    down. *)
Definition loopStep (ev : loop_event) (st : loop_state) (s : jpgTcpSucker)
  : M jpgTcpSucker :=
  match waiting st, ev with
  | WaitRead, EvReadDone d drains =>
      fun w =>
        match readDialed (bufSpare w) d drains s with
        | (s, EndPanic) => (set_loop None s, do ActPanic w)
        | (s, EndErr e) =>
            (set_loop (Some (mkLoop (leftRetry st) WaitTimer (Some e))) s,
             do (ActTimer 500) w)
        end
  | WaitTimer, EvTimer =>
      if leftRetry st <=? 0 then ret (finish (Some maxRetryError) s)
      else
        let* _ := dial s in
        ret (set_loop (Some (mkLoop (leftRetry st - 1) WaitRead (lastErr st))) s)
  | _, EvQuitC =>
      ret (finish None (set_quitC (option_map Nat.pred (quitC s)) s))
  | _, _ => ret s
  end.

(** [keepReadFromTcp] up to its first [select]: what the task does when
    it first runs. *)
Definition keepReadFromTcp (s : jpgTcpSucker) : M jpgTcpSucker :=
  let* _ := dial s in
  ret (set_loop (Some (mkLoop 10 WaitRead None)) s).

(** An event reaches the task only while the task is alive.  A task that
    was created and has not run yet runs first, up to its [select], where
    it finds the event. *)
Definition handle (ev : loop_event) (s : jpgTcpSucker) : M jpgTcpSucker :=
  match loop s with
  | Some st => loopStep ev st s
  | None =>
      if spawned s then
        let* s := keepReadFromTcp s in
        loopStep ev (mkLoop 10 WaitRead None) s
      else ret s
  end.

(** The background task over the events it receives, in order. *)
Fixpoint handleAll (evs : list loop_event) (s : jpgTcpSucker)
  : M jpgTcpSucker :=
  match evs with
  | [] => ret s
  | ev :: evs' => let* s := handle ev s in handleAll evs' s
  end.

(** [prepareForward]: [ForwardToFreePort(s.forwardSpec)]. *)
Definition prepareForward (s : jpgTcpSucker) : M (Z * option error) :=
  fun w =>
    (forward_result w (forwardSpec s), do (ActForward (forwardSpec s)) w).

(** [Start]; the [go s.keepReadFromTcp()] that ends it creates the task
    and returns. *)
Definition Start (s : jpgTcpSucker) : M (jpgTcpSucker * outcome) :=
  safeDo mix set_mix
    (fun s =>
       let s := set_mix (resetError (mix s)) s in
       let s := set_C [] s in
       let s := set_quitC (Some 0%nat) s in
       let* (port, err) := prepareForward s in
       let s := set_port port s in
       match err with
       | Some e => ret (s, Returned (Some e))
       | None => ret (spawn s, Returned None)
       end) s.

(** [Stop]: send the stop, close the connection if there is one, wait. *)
Definition Stop (s : jpgTcpSucker) : M (jpgTcpSucker * outcome) :=
  safeDo mix set_mix
    (fun s =>
       match Supervisor.sendQuit (quitC s) with
       | None => ret (s, Blocked)
       | Some k =>
           let s := set_quitC (Some k) s in
           let* s := handle EvQuitC s in
           let* _ := if conn s then act ActCloseConn else ret tt in
           ret (s, Wait (mix s))
       end) s.

(** The dials recorded in a log. *)
Definition dials (l : list action) : nat :=
  length (List.filter (fun a => match a with ActDial _ => true | _ => false end) l).

End Reader.

(** ** Session coordinator *)

Module Coordinator.

(** [STFCapturer]: the two components, by pointer. *)
Record STFCapturer : Type := mkCapturer {
  daemon : Supervisor.minicapDaemon;
  sucker : Reader.jpgTcpSucker
}.

Definition NewSTFCapturer : STFCapturer :=
  mkCapturer Supervisor.newMinicapDaemon Reader.newSucker.

(** [Start]: the supervisor, then the transport, then the reader. *)
Definition Start (s : STFCapturer) : M (STFCapturer * outcome) :=
  let* (d, o) := Supervisor.Start (daemon s) in
  match o with
  | Blocked => ret (mkCapturer d (sucker s), Blocked)
  | Returned (Some e) => ret (mkCapturer d (sucker s), Returned (Some e))
  | Returned None =>
      let spec :=
        if String.eqb (Supervisor.binaryPath d) "/data/local/tmp/slow-minicap"
        then mkForwardSpec FProtocolTcp "2016"
        else mkForwardSpec FProtocolAbstract "minicap" in
      let* (j, o) := Reader.Start (Reader.set_forwardSpec spec (sucker s)) in
      ret (mkCapturer d j, o)
  end.

(** Modelled from the spec: [wrapMultiError] is declared outside this
    file; per the spec it combines the errors it is given without
    suppressing any, and no error at all combines to none. *)
Definition wrapMultiError (errs : list (option error)) : option error :=
  match omap id errs with
  | [] => None
  | es => Some (ErrMulti es)
  end.

(** [Stop]: Go evaluates the two arguments of [wrapMultiError] in order
    before the call; a [Stop] that never returns keeps the rest from
    running. *)
Definition Stop (s : STFCapturer) : M (STFCapturer * outcome) :=
  let* (d, o1) := Supervisor.Stop (daemon s) in
  match o1 with
  | Blocked => ret (mkCapturer d (sucker s), Blocked)
  | Returned e1 =>
      let* (j, o2) := Reader.Stop (sucker s) in
      match o2 with
      | Blocked => ret (mkCapturer d j, Blocked)
      | Returned e2 => ret (mkCapturer d j, Returned (wrapMultiError [e1; e2]))
      end
  end.

End Coordinator.

(** * Properties *)

(** ** Worlds and logs *)

(** The world after a list of actions. *)
Definition doAll (acts : list action) (w : World) : World :=
  fold_left (fun w a => do a w) acts w.


Lemma log_doAll acts w : log (doAll acts w) = log w ++ acts.
Proof.
  revert w. induction acts as [|a acts IH]; intros w; cbn.
  - now rewrite app_nil_r.
  - rewrite IH. cbn. now rewrite <- app_assoc.
Qed.


(** ** Supervisor: quality and rotation *)

Module SupervisorFacts.
Import Supervisor.

(** A device that reports a 1080x1920 screen in its natural orientation. *)
Definition info1080 : minicapInfo := mkInfo 0 1080 1920 false 0.

Definition freshDaemon : minicapDaemon := set_info info1080 newMinicapDaemon.

Definition processKilled : command_output := Stream ["PID: 9355"] ErrEOF.

Definition emptyWorld : World :=
  mkWorld ∅ None [] (fun _ => None) (fun _ => (0, None)) (fun _ => 512%nat) [].

Lemma SetQuality_maxWidth (m : minicapDaemon) (quality : Z) :
  maxWidth (fst (SetQuality m quality)) = maxWidth m.
Proof.
  unfold SetQuality.
  repeat match goal with |- context [if ?b then _ else _] => destruct b end;
    reflexivity.
Qed.

(** C1 (defect of the code).  [SetQuality] never writes [maxWidth]: every
    tier assigns [maxHeight] twice.  On a daemon at its default 720x720 box,
    [SetQuality(QUALITY_1080P)] leaves the width bound at 720, and the
    relaunch it forces runs with the box 720x1080 instead of 1080x1080. *)
Theorem SetQuality_leaves_maxWidth :
  (forall m quality, maxWidth (fst (SetQuality m quality)) = maxWidth m) /\
  (let m := fst (SetQuality freshDaemon QUALITY_1080P) in
   maxWidth m = 720 /\ maxHeight m = 1080) /\
  launches
    (log (snd ((let* m := runScreenCaptureWithRotate freshDaemon in
                let* (m, _) := callSetQuality QUALITY_1080P m in
                handle (EvErrC processKilled) m) emptyWorld)))
  = ["1080x1920@720x720/0"; "1080x1920@720x1080/0"].
Proof.
  split; [exact SetQuality_maxWidth|]. split; [split|]; reflexivity.
Qed.

(** *** The control stream *)

(** The first non-empty line of a control stream. *)
Definition firstNonEmpty (lines : list string) : option string :=
  List.find (fun l => negb (String.eqb l "")) lines.

(** The protocol-violation error of the watch. *)
Definition protocolViolation (e : option error) : Prop :=
  exists line, e = Some (ErrWrap (ErrExpectPID line) "run minicap").

Lemma watch_first_line (first : string) (rest : list string) (readErr : error) :
  watch (Stream (first :: rest) readErr) =
  if Contains first "PID:" then Some (ErrNew "minicap quit")
  else Some (ErrWrap (ErrExpectPID first) "run minicap").
Proof. cbn. destruct (Contains first "PID:"); reflexivity. Qed.

(** The watch looks at the first line it reads, empty or not: on a stream
    that has a first line, it fails with the protocol violation exactly
    when that line lacks "PID:". *)
Lemma watch_checks_first_line (first : string) (rest : list string)
    (readErr : error) :
  protocolViolation (watch (Stream (first :: rest) readErr)) <->
  Contains first "PID:" = false.
Proof.
  rewrite watch_first_line.
  destruct (Contains first "PID:"); split; try reflexivity; try discriminate.
  - intros [line H]. discriminate.
  - intros _. now exists first.
Qed.

(** C6, as the code has it.  The watch looks at the first line of the
    control stream, empty or not: it fails with the protocol-violation
    error, which quotes that line, exactly when that line lacks "PID:".
    When the line has it, the watch ends in the error "minicap quit"
    whatever follows; no line after the first has any influence on the
    result.  A command that cannot be opened, and a stream that ends or
    fails before its first line, give that error as it is.  No stream
    makes the watch return without an error. *)
Theorem watch_control_stream (first : string) (rest : list string)
    (readErr : error) :
  (Contains first "PID:" = false ->
   watch (Stream (first :: rest) readErr)
   = Some (ErrWrap (ErrExpectPID first) "run minicap")) /\
  (Contains first "PID:" = true ->
   watch (Stream (first :: rest) readErr) = Some (ErrNew "minicap quit")) /\
  (protocolViolation (watch (Stream (first :: rest) readErr)) <->
   Contains first "PID:" = false) /\
  (forall rest' readErr',
      watch (Stream (first :: rest) readErr)
      = watch (Stream (first :: rest') readErr')) /\
  watch (Stream [] readErr) = Some readErr /\
  watch (OpenFailed readErr) = Some readErr /\
  (forall out, watch out <> None).
Proof.
  split; [|split; [|split; [|split; [|split; [|split]]]]].
  - intros H. now rewrite watch_first_line, H.
  - intros H. now rewrite watch_first_line, H.
  - apply watch_checks_first_line.
  - intros. now rewrite !watch_first_line.
  - reflexivity.
  - reflexivity.
  - intros [e|[|l ls] e]; try discriminate.
    rewrite watch_first_line. now destruct (Contains l "PID:").
Qed.

Lemma watch_control_stream_witness :
  watch (Stream ["ERROR: resource busy"; "PID: 9355"] ErrEOF)
  = Some (ErrWrap (ErrExpectPID "ERROR: resource busy") "run minicap") /\
  watch (Stream ["PID: 9355"; "INFO: Using projection"] ErrEOF)
  = Some (ErrNew "minicap quit").
Proof.
  split.
  - apply (proj1 (watch_control_stream "ERROR: resource busy" ["PID: 9355"]
                    ErrEOF)).
    reflexivity.
  - apply (proj1 (proj2 (watch_control_stream "PID: 9355"
                           ["INFO: Using projection"] ErrEOF))).
    reflexivity.
Defined.

(** C6, as stated, fails.  The stream begins with an empty line and
    announces its PID on the next: its first non-empty line contains
    "PID:", and the watch fails with the protocol violation all the
    same, because the line it tests is the empty one. *)
Lemma watch_rejects_PID_after_empty_line :
  firstNonEmpty [""; "PID: 9355"] = Some "PID: 9355" /\
  Contains "PID: 9355" "PID:" = true /\
  watch (Stream [""; "PID: 9355"] ErrEOF)
  = Some (ErrWrap (ErrExpectPID "") "run minicap") /\
  protocolViolation (watch (Stream [""; "PID: 9355"] ErrEOF)).
Proof.
  split; [reflexivity|]. split; [reflexivity|]. split; [reflexivity|].
  now exists "".
Qed.

(** *** Rotation requests *)

Definition kills : list action :=
  [ActKillProc "minicap"; ActKillProc "slow-minicap"].

Lemma handle_rotation (m : minicapDaemon) (st : loop_state) (w : World) (r : Z) :
  loop m = Some st ->
  handle (EvRotationC r) m w
  = (set_loop (Some (mkLoop true (err st))) (set_rotation r m), doAll kills w).
Proof. intros H. unfold handle. rewrite H. reflexivity. Qed.

Lemma handle_watch_done (m : minicapDaemon) (e : option error) (w : World)
    (out : command_output) :
  loop m = Some (mkLoop true e) ->
  handle (EvErrC out) m w
  = (set_loop (Some (mkLoop false None)) m,
     do (ActLaunch (binaryPath m) (launchParam m)) w).
Proof. intros H. unfold handle. rewrite H. reflexivity. Qed.

Lemma launches_app (l1 l2 : list action) :
  launches (l1 ++ l2) = launches l1 ++ launches l2.
Proof. apply flat_map_app. Qed.

Lemma last_cons (a : Z) (l : list Z) (d : Z) :
  List.last (a :: l) d = List.last l a.
Proof.
  revert a d. induction l as [|b l IH]; intros a d; [reflexivity|].
  change (List.last (a :: b :: l) d) with (List.last (b :: l) d).
  now rewrite (IH b d), (IH b a).
Qed.

(** Rotation requests received one after the other before the watch of the
    killed process completes share one relaunch, which uses the last of
    them. *)
Lemma rotations_then_exit (rs : list Z) :
  forall (r : Z) (m : minicapDaemon) (st : loop_state) (w : World)
         (out : command_output),
    loop m = Some st ->
    let (m', w') := handleAll (map EvRotationC (r :: rs) ++ [EvErrC out]) m w in
    launches (log w')
    = launches (log w) ++ [launchParam (set_rotation (List.last rs r) m)] /\
    rotation m' = List.last rs r /\
    loop m' = Some (mkLoop false None).
Proof.
  induction rs as [|r2 rs IH]; intros r m st w out Hl.
  - cbn [map app handleAll]. unfold bind.
    rewrite (handle_rotation _ st) by exact Hl.
    erewrite handle_watch_done by reflexivity. unfold ret.
    cbn [log do]. rewrite launches_app, log_doAll, launches_app.
    cbn. rewrite app_nil_r. auto.
  - change (map EvRotationC (r :: r2 :: rs) ++ [EvErrC out])
      with (EvRotationC r :: (map EvRotationC (r2 :: rs) ++ [EvErrC out])).
    cbn [handleAll]. unfold bind at 1.
    rewrite (handle_rotation _ st) by exact Hl.
    specialize (IH r2 (set_loop (Some (mkLoop true (err st))) (set_rotation r m))
                  (mkLoop true (err st)) (doAll kills w) out eq_refl).
    destruct (handleAll _ _ _) as [m' w'].
    rewrite log_doAll, launches_app in IH. cbn in IH.
    rewrite app_nil_r in IH.
    now rewrite (last_cons r2 rs r).
Qed.

(** C7, as the code has it.  A [SetRotation(r)] whose send is not received
    within 100 ms leaves the supervisor and the device untouched.  One
    that is received sets the rotation to [r], marks a restart as
    requested and kills the running process.  When the watch of that
    process completes, exactly one relaunch follows; it uses rotation [r]
    when no other request came in between, and the last rotation received
    otherwise.  A stop received before the watch completes ends the
    supervision without a relaunch. *)
Theorem SetRotation_effect (m : minicapDaemon) (st : loop_state) (w : World)
    (r : Z) :
  loop m = Some st ->
  callSetRotation r After100ms m w = (m, w) /\
  callSetRotation r SendReceived m w
  = (set_loop (Some (mkLoop true (err st))) (set_rotation r m), doAll kills w) /\
  (forall rs out,
      let (m', w') :=
        handleAll (map EvRotationC (r :: rs) ++ [EvErrC out]) m w in
      launches (log w')
      = launches (log w) ++ [launchParam (set_rotation (List.last rs r) m)] /\
      rotation m' = List.last rs r /\
      loop m' = Some (mkLoop false None)) /\
  (let (m', w') := handleAll [EvRotationC r; EvQuitC] m w in
   launches (log w') = launches (log w) /\ loop m' = None).
Proof.
  intros Hl. split; [reflexivity|]. split; [|split].
  - unfold callSetRotation, SetRotation. now apply handle_rotation.
  - intros rs out. now apply (rotations_then_exit rs r m st w out).
  - cbn [handleAll]. unfold bind.
    rewrite (handle_rotation _ st) by exact Hl.
    cbn. rewrite !launches_app. cbn. now rewrite !app_nil_r.
Qed.

(** A running supervisor, right after its first launch. *)
Definition running : minicapDaemon * World :=
  runScreenCaptureWithRotate freshDaemon emptyWorld.

Lemma SetRotation_effect_witness :
  let (m', w') :=
    handleAll [EvRotationC 1; EvErrC processKilled] (fst running) (snd running) in
  launches (log w') = ["1080x1920@720x720/0"; "1080x1920@720x720/1"] /\
  rotation m' = 1 /\
  loop m' = Some (mkLoop false None).
Proof.
  exact (proj1 (proj2 (proj2
           (SetRotation_effect (fst running) (mkLoop false None) (snd running)
              1 eq_refl))) [] processKilled).
Defined.

(** C7, as stated, fails.  Two requests are received in a row, for
    rotations 1 and 2, before the watch of the killed process completes:
    both were observed, one restart follows, and no launch ever uses
    rotation 1. *)
Lemma SetRotation_not_one_restart_each :
  let (m', w') :=
    (let* m := callSetRotation 1 SendReceived (fst running) in
     let* m := callSetRotation 2 SendReceived m in
     handle (EvErrC processKilled) m) (snd running) in
  launches (log w') = ["1080x1920@720x720/0"; "1080x1920@720x720/2"] /\
  ~ In "1080x1920@720x720/1" (launches (log w')) /\
  rotation m' = 2.
Proof.
  cbn. split; [reflexivity|]. split; [|reflexivity].
  intros [H|[H|[]]]; discriminate.
Qed.

End SupervisorFacts.

(** ** Reader: frames, queue and retries *)

Module ReaderFacts.
Import Reader.

(** The frame loop, one pass unfolded. *)
Lemma frameLoop_step (spareCap : nat -> nat) (drains : list nat)
    (q : list (list byte)) (r : errorBinaryReader) :
  frameLoop spareCap drains q r =
  match nextFrame spareCap r with
  | FrameEnd e => (q, e)
  | FrameOk frame r' =>
      frameLoop spareCap (tl drains) (trySend (drop (hd 0%nat drains) q) frame) r'
  end.
Proof.
  funelim (frameLoop spareCap drains q r);
    match goal with H : nextFrame _ _ = _ |- _ => rewrite H end; reflexivity.
Qed.

(** *** The marker check *)

(** A frame that begins with the JPEG start-of-image marker. *)
Definition startsWithMarker (frame : list byte) : Prop :=
  take 2 frame = [xff; xd8].

Lemma isJpegMarker_true (p : list byte) :
  isJpegMarker p = true -> p = [xff; xd8].
Proof.
  destruct p as [|b0 [|b1 [|b2 p]]]; try discriminate. cbn.
  intros H. apply andb_prop in H as [H0 H1].
  now rewrite (byte_dec_bl _ _ H0), (byte_dec_bl _ _ H1).
Qed.

Lemma isJpegMarker_false (p : list byte) :
  length p = 2%nat -> p <> [xff; xd8] -> isJpegMarker p = false.
Proof.
  intros Hl Hne. destruct (isJpegMarker p) eqn:E; [|reflexivity].
  now apply isJpegMarker_true in E.
Qed.

(** The marker check always finds its two cells: behind the payload lie
    the zero cells that the copy left free. *)
Lemma sliceTo_2_Bytes (spareCap : nat -> nat) (payload : list byte) :
  sliceTo 2 (Bytes spareCap payload) = Some (take 2 (payload ++ [x00; x00])).
Proof.
  unfold sliceTo, Bytes. cbn [elems spare]. rewrite length_replicate.
  replace (2 <=? _)%nat with true
    by (symmetry; apply Nat.leb_le; unfold MinRead; lia).
  assert (MinRead + spareCap (length payload)
          = S (S (510 + spareCap (length payload))))%nat as ->
    by reflexivity.
  now destruct payload as [|b0 [|b1 rest]].
Qed.

(** The check passes only on a payload of at least two bytes that begins
    with the marker: the zero cells behind a shorter payload never
    complete it. *)
Lemma marker_check_sound (spareCap : nat -> nat) (payload p : list byte) :
  sliceTo 2 (Bytes spareCap payload) = Some p ->
  isJpegMarker p = true ->
  startsWithMarker payload.
Proof.
  rewrite sliceTo_2_Bytes. intros [= <-] H.
  apply isJpegMarker_true in H. unfold startsWithMarker.
  destruct payload as [|b0 [|b1 rest]]; cbn in *;
    [discriminate|discriminate|exact H].
Qed.

Lemma nextFrame_ok (spareCap : nat -> nat) (r r' : errorBinaryReader)
    (frame : list byte) :
  nextFrame spareCap r = FrameOk frame r' -> startsWithMarker frame.
Proof.
  unfold nextFrame. destruct (ReadInto [4%nat] r) as [values r1].
  destruct (err r1); [discriminate|].
  destruct (copyLimited _ _) as [[payload cerr] c].
  destruct cerr; [discriminate|].
  destruct (sliceTo 2 _) as [p|] eqn:Es; [|discriminate].
  destruct (isJpegMarker p) eqn:Em; cbn; [|discriminate].
  intros [= <- _]. eapply marker_check_sound; eauto.
Qed.

Lemma trySend_Forall (P : list byte -> Prop) q frame :
  Forall P q -> P frame -> Forall P (trySend q frame).
Proof.
  intros Hq Hf. unfold trySend. destruct (_ <? _)%nat; [|exact Hq].
  apply Forall_app. split; [exact Hq|]. now constructor.
Qed.

Lemma frameLoop_marker spareCap drains q r :
  Forall startsWithMarker q ->
  Forall startsWithMarker (fst (frameLoop spareCap drains q r)).
Proof.
  funelim (frameLoop spareCap drains q r); intros Hq; [exact Hq|].
  match goal with IH : Forall _ _ -> _ |- _ => apply IH end.
  apply trySend_Forall; [now apply Forall_drop|].
  eapply nextFrame_ok; eauto.
Qed.

(** Whatever holds of the queue and is kept by every pass of the frame
    loop is kept by the whole background task. *)
Lemma readDialed_C (P : list (list byte) -> Prop) spareCap d drains s :
  (forall drains q r, P q -> P (fst (frameLoop spareCap drains q r))) ->
  P (C s) -> P (C (fst (readDialed spareCap d drains s))).
Proof.
  intros Hloop Hs. unfold readDialed. destruct d as [e|c]; [exact Hs|].
  destruct (ReadInto preamble _) as [vs r]. destruct (err r); [exact Hs|].
  specialize (Hloop drains (C (set_conn true s)) r Hs).
  destruct (frameLoop _ _ _ _) as [q e]. exact Hloop.
Qed.

Lemma loopStep_C (P : list (list byte) -> Prop) ev st s w :
  (forall spareCap drains q r, P q -> P (fst (frameLoop spareCap drains q r))) ->
  P (C s) -> P (C (fst (loopStep ev st s w))).
Proof.
  intros Hloop Hs.
  unfold loopStep. destruct (waiting st), ev; try exact Hs.
  - pose proof (readDialed_C P (bufSpare w) d drains s (Hloop _) Hs) as H.
    destruct (readDialed _ _ _ _) as [s' [e|]]; exact H.
  - destruct (leftRetry st <=? 0); exact Hs.
Qed.

Lemma handle_C (P : list (list byte) -> Prop) ev s w :
  (forall spareCap drains q r, P q -> P (fst (frameLoop spareCap drains q r))) ->
  P (C s) -> P (C (fst (handle ev s w))).
Proof.
  intros Hloop Hs. unfold handle.
  destruct (loop s) as [st|]; [now apply loopStep_C|].
  destruct (spawned s); [|exact Hs].
  unfold keepReadFromTcp, bind, dial, act, ret. now apply loopStep_C.
Qed.

Lemma handleAll_C (P : list (list byte) -> Prop) evs :
  (forall spareCap drains q r, P q -> P (fst (frameLoop spareCap drains q r))) ->
  forall s w, P (C s) -> P (C (fst (handleAll evs s w))).
Proof.
  intros Hloop. induction evs as [|ev evs IH]; intros s w Hs; [exact Hs|].
  cbn [handleAll]. unfold bind.
  pose proof (handle_C P ev s w Hloop Hs) as H.
  destruct (handle ev s w) as [s' w']. now apply IH.
Qed.

(** A frame on the wire: its length field, then its payload. *)
Lemma nextFrame_on_frame (spareCap : nat -> nat)
    (sizeBytes payload rest : list byte) (e : error) :
  length sizeBytes = 4%nat ->
  N.to_nat (littleEndian sizeBytes) = length payload ->
  nextFrame spareCap (mkBinRd (mkConn (sizeBytes ++ payload ++ rest) e) None) =
  match sliceTo 2 (Bytes spareCap payload) with
  | None => FrameEnd EndPanic
  | Some p =>
      if negb (isJpegMarker p) then FrameEnd (EndErr jpegFormatError)
      else FrameOk payload (mkBinRd (mkConn rest e) None)
  end.
Proof.
  intros H4 Hsz. unfold nextFrame, ReadInto. cbn [err rd readEach].
  unfold readFull. cbn [incoming readErr].
  rewrite length_app, H4. cbn [Nat.leb Nat.add].
  rewrite (take_app_length' sizeBytes _ 4), (drop_app_length' sizeBytes _ 4)
    by congruence.
  cbn [err rd hd]. unfold copyLimited. cbn [incoming readErr].
  rewrite Hsz, length_app.
  replace (length payload <=? length payload + length rest)%nat with true
    by (symmetry; apply Nat.leb_le; lia).
  rewrite take_app_length, drop_app_length. reflexivity.
Qed.

(** C4.  Every frame in the output queue begins with the bytes ff d8: the
    background task keeps this true of the queue through every event.  A
    payload of two bytes or more that begins otherwise ends the read loop
    of its connection with the error "jpeg format error", and the queue is
    left as it was. *)
Theorem delivered_frames_start_with_marker :
  (forall evs s w,
      Forall startsWithMarker (C s) ->
      Forall startsWithMarker (C (fst (handleAll evs s w)))) /\
  (forall spareCap drains q sizeBytes payload rest e,
      length sizeBytes = 4%nat ->
      N.to_nat (littleEndian sizeBytes) = length payload ->
      (2 <= length payload)%nat ->
      ~ startsWithMarker payload ->
      frameLoop spareCap drains q
        (mkBinRd (mkConn (sizeBytes ++ payload ++ rest) e) None)
      = (q, EndErr jpegFormatError)).
Proof.
  split.
  - intros evs s w. apply handleAll_C. intros. now apply frameLoop_marker.
  - intros spareCap drains q sizeBytes payload rest e H4 Hsz H2 Hbad.
    rewrite frameLoop_step, nextFrame_on_frame by assumption.
    unfold sliceTo, Bytes. cbn [elems spare].
    replace (2 <=? _)%nat with true by (symmetry; apply Nat.leb_le; lia).
    rewrite take_app_le by lia.
    rewrite isJpegMarker_false; [reflexivity| |exact Hbad].
    rewrite length_take. lia.
Qed.

(** A connection that carries the preamble and one frame whose payload
    begins with 00 01. *)
Definition badFrame : list byte := [x02; x00; x00; x00; x00; x01].

Lemma delivered_frames_start_with_marker_witness :
  Forall startsWithMarker
    (C (fst (handleAll [EvQuitC] (set_C [[xff; xd8; x00]] newSucker)
               SupervisorFacts.emptyWorld))) /\
  frameLoop (fun _ => 512%nat) [] [] (mkBinRd (mkConn badFrame ErrEOF) None)
  = ([], EndErr jpegFormatError).
Proof.
  split.
  - apply (proj1 delivered_frames_start_with_marker).
    repeat constructor.
  - apply (proj2 delivered_frames_start_with_marker (fun _ => 512%nat) [] []
             [x02; x00; x00; x00] [x00; x01] [] ErrEOF);
      [reflexivity | reflexivity | cbn; lia | discriminate].
Defined.

(** *** The bounded queue *)

Lemma trySend_length q frame :
  (length q <= queueCap)%nat -> (length (trySend q frame) <= queueCap)%nat.
Proof.
  unfold trySend. destruct (length q <? queueCap)%nat eqn:E; [|auto].
  apply Nat.ltb_lt in E. rewrite length_app. cbn. lia.
Qed.

Lemma frameLoop_length spareCap drains q r :
  (length q <= queueCap)%nat ->
  (length (fst (frameLoop spareCap drains q r)) <= queueCap)%nat.
Proof.
  funelim (frameLoop spareCap drains q r); intros Hq; [exact Hq|].
  match goal with IH : _ -> (_ <= _)%nat |- _ => apply IH end.
  apply trySend_length. rewrite length_drop. lia.
Qed.

(** How the read loop ends depends on the connection alone, not on the
    queue or the consumer. *)
Lemma frameLoop_end spareCap r :
  forall drains q drains' q',
    snd (frameLoop spareCap drains q r) = snd (frameLoop spareCap drains' q' r).
Proof.
  induction r as [r IH] using
    (well_founded_induction
       (wf_inverse_image _ _ _ (fun r => length (incoming (rd r))) lt_wf)).
  intros drains q drains' q'. rewrite !(frameLoop_step spareCap _ _ r).
  destruct (nextFrame spareCap r) as [e|frame r'] eqn:E; [reflexivity|].
  apply IH. eapply nextFrame_shorter; eauto.
Qed.

Lemma frameLoop_full spareCap q r :
  length q = queueCap -> fst (frameLoop spareCap [] q r) = q.
Proof.
  induction r as [r IH] using
    (well_founded_induction
       (wf_inverse_image _ _ _ (fun r => length (incoming (rd r))) lt_wf)).
  intros Hq. rewrite frameLoop_step.
  destruct (nextFrame spareCap r) as [e|frame r'] eqn:E; [reflexivity|].
  change (drop (hd 0%nat []) q) with q. change (tl (@nil nat)) with (@nil nat).
  unfold trySend. rewrite Hq, Nat.ltb_irrefl.
  apply IH; [eapply nextFrame_shorter; eauto | exact Hq].
Qed.

(** C5.  The queue never holds more than 3 frames, whatever the consumer
    does and whatever arrives; a delivery to a full queue leaves the queue
    as it is and one to a shorter queue appends the frame; the read loop
    ends the same way whatever the queue holds and whatever the consumer
    takes, so it never waits for the consumer; and with a full queue that
    nobody drains it runs to its end with the queue unchanged. *)
Theorem queue_bounded_nonblocking :
  queueCap = 3%nat /\
  (forall evs s w,
      (length (C s) <= 3)%nat ->
      (length (C (fst (handleAll evs s w))) <= 3)%nat) /\
  (forall q frame, length q = 3%nat -> trySend q frame = q) /\
  (forall q frame, (length q < 3)%nat -> trySend q frame = q ++ [frame]) /\
  (forall spareCap r drains q drains' q',
      snd (frameLoop spareCap drains q r)
      = snd (frameLoop spareCap drains' q' r)) /\
  (forall spareCap q r,
      length q = 3%nat -> fst (frameLoop spareCap [] q r) = q).
Proof.
  split; [reflexivity|]. split; [|split; [|split; [|split]]].
  - intros evs s w.
    apply (handleAll_C (fun q => (length q <= queueCap)%nat)).
    intros. now apply frameLoop_length.
  - intros q frame H. unfold trySend. now rewrite H.
  - intros q frame H. unfold trySend.
    now replace (length q <? queueCap)%nat with true
      by (symmetry; apply Nat.ltb_lt; exact H).
  - intros. apply frameLoop_end.
  - intros. now apply frameLoop_full.
Qed.

(** Four well-formed frames on one connection, after the preamble. *)
Definition jpegFrame : list byte := [x02; x00; x00; x00; xff; xd8].

Definition fourFrames : Conn :=
  mkConn (replicate 24 x00 ++ jpegFrame ++ jpegFrame ++ jpegFrame ++ jpegFrame)
         ErrEOF.

Lemma queue_bounded_nonblocking_witness :
  (length (C (fst (handleAll [EvReadDone (Dialed fourFrames) []]
                     (fst (keepReadFromTcp newSucker SupervisorFacts.emptyWorld))
                     SupervisorFacts.emptyWorld))) <= 3)%nat /\
  trySend [[xff; xd8]; [xff; xd8]; [xff; xd8]] [xff; xd8; x00]
  = [[xff; xd8]; [xff; xd8]; [xff; xd8]] /\
  trySend [] [xff; xd8] = [[xff; xd8]] /\
  fst (frameLoop (fun _ => 512%nat) []
         [[xff; xd8]; [xff; xd8]; [xff; xd8]]
         (mkBinRd (mkConn jpegFrame ErrEOF) None))
  = [[xff; xd8]; [xff; xd8]; [xff; xd8]].
Proof.
  destruct queue_bounded_nonblocking as (_ & Hlen & Hfull & Hshort & _ & Hrun).
  split; [|split; [|split]].
  - apply Hlen. cbn. lia.
  - apply Hfull. reflexivity.
  - apply (Hshort [] [xff; xd8]). cbn. lia.
  - apply Hrun. reflexivity.
Defined.

(** *** The retry budget *)

(** One failed attempt as the task sees it: the read task returns the
    error of its dial, then the 500 ms timer fires. *)
Definition failedAttempt (e : error) : list loop_event :=
  [EvReadDone (DialFailed e) []; EvTimer].

(** Every dial fails, with the errors [errs] in turn. *)
Definition allDialsFail (errs : list error) : list loop_event :=
  flat_map failedAttempt errs.

(** What one attempt leaves in the log. *)
Definition attemptLog (p : Z) : list action := [ActDial p; ActTimer 500].

Lemma handleAll_app evs1 evs2 s w :
  handleAll (evs1 ++ evs2) s w
  = let (s', w') := handleAll evs1 s w in handleAll evs2 s' w'.
Proof.
  revert s w. induction evs1 as [|ev evs1 IH]; intros s w; [reflexivity|].
  cbn [app handleAll]. unfold bind. destruct (handle ev s w) as [s' w'].
  apply IH.
Qed.

(** A task that is over, or was never created, takes no event. *)
Lemma handleAll_dead evs s w :
  loop s = None -> spawned s = false -> handleAll evs s w = (s, w).
Proof.
  intros H Hs. induction evs as [|ev evs IH]; [reflexivity|].
  cbn [handleAll]. unfold bind, handle. rewrite H, Hs. exact IH.
Qed.

Lemma handle_quit s st w :
  loop s = Some st ->
  handle EvQuitC s w
  = (finish None (set_quitC (option_map Nat.pred (quitC s)) s), w).
Proof.
  intros H. unfold handle, loopStep. rewrite H. now destruct (waiting st).
Qed.

Lemma dials_app l1 l2 : dials (l1 ++ l2) = (dials l1 + dials l2)%nat.
Proof. unfold dials. now rewrite List.filter_app, length_app. Qed.

Lemma dials_attempts {A} (p : Z) (l : list A) :
  dials (flat_map (fun _ => attemptLog p) l) = length l.
Proof.
  induction l as [|a l IH]; [reflexivity|].
  cbn [flat_map]. rewrite dials_app, IH. reflexivity.
Qed.

(** With [length errs - 1] retries left, [length errs] failed attempts
    end the task with the retry-budget error. *)
Lemma failed_attempts_exhaust (errs : list error) :
  forall s w le e,
    loop s = Some (mkLoop (Z.of_nat (length errs)) WaitRead le) ->
    handleAll (allDialsFail (e :: errs)) s w
    = (finish (Some maxRetryError) s,
       doAll (ActTimer 500 :: flat_map (fun _ => attemptLog (port s)) errs) w).
Proof.
  induction errs as [|e2 errs IH]; intros s w le e Hl.
  - cbn. unfold bind, handle. rewrite Hl. cbn. reflexivity.
  - change (allDialsFail (e :: e2 :: errs))
      with (failedAttempt e ++ allDialsFail (e2 :: errs)).
    rewrite handleAll_app.
    assert (handleAll (failedAttempt e) s w
            = (set_loop (Some (mkLoop (Z.of_nat (length errs)) WaitRead
                                 (Some e))) s,
               doAll [ActTimer 500; ActDial (port s)] w)) as ->.
    { cbn [failedAttempt handleAll]. unfold bind, handle. rewrite Hl.
      cbn [loopStep waiting readDialed loop set_loop leftRetry lastErr].
      replace (Z.of_nat (length (e2 :: errs)) <=? 0) with false
        by (symmetry; apply Z.leb_gt; cbn [length]; lia).
      unfold bind, dial, act, ret.
      replace (Z.of_nat (length (e2 :: errs)) - 1) with (Z.of_nat (length errs))
        by (cbn [length]; lia).
      reflexivity. }
    erewrite IH by reflexivity.
    reflexivity.
Qed.

(** Before the last timer fires the task is still alive. *)
Lemma failed_attempts_alive (errs : list error) :
  forall k s w n le,
    loop s = Some (mkLoop n WaitRead le) ->
    Z.of_nat (length errs) - 1 <= n ->
    (k < 2 * length errs)%nat ->
    exists st, loop (fst (handleAll (take k (allDialsFail errs)) s w)) = Some st.
Proof.
  induction errs as [|e errs IH]; intros k s w n le Hl Hn Hk; [cbn in Hk; lia|].
  destruct k as [|[|k]].
  - cbn. eauto.
  - cbn. unfold bind, handle. rewrite Hl. cbn. eauto.
  - change (take (S (S k)) (allDialsFail (e :: errs)))
      with (failedAttempt e ++ take k (allDialsFail errs)).
    rewrite handleAll_app.
    cbn [failedAttempt handleAll]. unfold bind, handle. rewrite Hl.
    cbn [loopStep waiting readDialed loop set_loop leftRetry lastErr].
    cbn [length] in Hn, Hk.
    replace (n <=? 0) with false by (symmetry; apply Z.leb_gt; lia).
    unfold bind, dial, act, ret.
    eapply IH; [reflexivity| |]; lia.
Qed.

(** C3.  The task starts with one dial.  If that dial and the ten that
    follow all fail, the task makes these eleven attempts, each followed by
    a 500 ms wait, and ends with the error "jpgTcpSucker reach max
    retry(10)" stored as its terminal result; no later event makes it dial
    again.  A stop received at any wait point before that ends the task
    with no error. *)
Theorem retry_budget_exhausted (s : jpgTcpSucker) (w : World)
    (errs : list error) :
  length errs = 11%nat ->
  let (s0, w0) := keepReadFromTcp s w in
  let (s1, w1) := handleAll (allDialsFail errs) s0 w0 in
  terminal (mix s1) = Some (Some (ErrWrap maxRetryError "readFromTcp")) /\
  loop s1 = None /\
  log w1 = log w ++ flat_map (fun _ => attemptLog (port s)) errs /\
  dials (log w1) = (dials (log w) + 1 + 10)%nat /\
  (forall evs, handleAll evs s1 w1 = (s1, w1)) /\
  (forall k, (k < 22)%nat ->
     let (s2, w2) := handleAll (take k (allDialsFail errs) ++ [EvQuitC]) s0 w0 in
     terminal (mix s2) = Some None /\ loop s2 = None).
Proof.
  intros Hlen. unfold keepReadFromTcp, bind, dial, act, ret.
  destruct errs as [|e errs]; [discriminate|].
  injection Hlen as Hlen.
  set (s0 := set_loop (Some (mkLoop 10 WaitRead None)) s).
  assert (loop s0 = Some (mkLoop (Z.of_nat (length errs)) WaitRead None)) as Hl
    by (rewrite Hlen; reflexivity).
  rewrite (failed_attempts_exhaust errs s0 _ None e Hl).
  cbn [mix finish set_mix set_loop doneError terminal Wrap loop].
  split; [reflexivity|]. split; [reflexivity|].
  assert (log (doAll (ActTimer 500 :: flat_map (fun _ => attemptLog (port s0)) errs)
                 (do (ActDial (port s)) w))
          = log w ++ flat_map (fun _ => attemptLog (port s)) (e :: errs)) as Hlog.
  { rewrite log_doAll. cbn. now rewrite <- app_assoc. }
  split; [exact Hlog|]. split; [|split].
  - rewrite Hlog, dials_app, dials_attempts. cbn [length]. lia.
  - intros evs. now apply handleAll_dead.
  - intros k Hk. rewrite handleAll_app.
    destruct (failed_attempts_alive (e :: errs) k s0 (do (ActDial (port s)) w)
                10 None eq_refl) as [st Hst].
    { cbn [length]. lia. }
    { cbn [length]. lia. }
    destruct (handleAll (take k _) s0 _) as [s' w']. cbn [fst] in Hst.
    cbn [handleAll]. unfold bind. rewrite (handle_quit _ st) by exact Hst.
    split; reflexivity.
Qed.

Definition refused : error := ErrExternal "connection refused".

Lemma retry_budget_exhausted_witness :
  let (s0, w0) := keepReadFromTcp newSucker SupervisorFacts.emptyWorld in
  let (s1, w1) := handleAll (allDialsFail (replicate 11 refused)) s0 w0 in
  terminal (mix s1) = Some (Some (ErrWrap maxRetryError "readFromTcp")) /\
  loop s1 = None /\
  log w1 = log SupervisorFacts.emptyWorld
           ++ flat_map (fun _ => attemptLog (port newSucker)) (replicate 11 refused) /\
  dials (log w1) = (dials (log SupervisorFacts.emptyWorld) + 1 + 10)%nat /\
  (forall evs, handleAll evs s1 w1 = (s1, w1)) /\
  (forall k, (k < 22)%nat ->
     let (s2, w2) :=
       handleAll (take k (allDialsFail (replicate 11 refused)) ++ [EvQuitC])
                 s0 w0 in
     terminal (mix s2) = Some None /\ loop s2 = None).
Proof.
  exact (retry_budget_exhausted newSucker SupervisorFacts.emptyWorld
           (replicate 11 refused) eq_refl).
Defined.

(** *** Payloads shorter than the marker *)


Lemma nextFrame_no_panic (spareCap : nat -> nat) (r : errorBinaryReader) :
  nextFrame spareCap r <> FrameEnd EndPanic.
Proof.
  unfold nextFrame.
  destruct (ReadInto [4%nat] r) as [values r1].
  destruct (err r1); [discriminate|].
  destruct (copyLimited _ _) as [[payload cerr] c].
  destruct cerr; [discriminate|].
  rewrite sliceTo_2_Bytes. now destruct (negb _).
Qed.

Lemma frameLoop_no_panic spareCap drains q r :
  snd (frameLoop spareCap drains q r) <> EndPanic.
Proof.
  funelim (frameLoop spareCap drains q r); [|auto].
  cbn. intros He. subst.
  match goal with H : nextFrame _ _ = FrameEnd EndPanic |- _ =>
    exact (nextFrame_no_panic _ _ H) end.
Qed.

Lemma readDialed_no_panic spareCap d drains s :
  snd (readDialed spareCap d drains s) <> EndPanic.
Proof.
  unfold readDialed. destruct d as [e|c]; [discriminate|].
  destruct (ReadInto preamble _) as [vs r]. destruct (err r); [discriminate|].
  pose proof (frameLoop_no_panic spareCap drains (C (set_conn true s)) r).
  now destruct (frameLoop _ _ _ _).
Qed.

Lemma readFromTcp_ends spareCap d drains s :
  exists e, snd (readDialed spareCap d drains s) = EndErr e.
Proof.
  pose proof (readDialed_no_panic spareCap d drains s) as H.
  destruct (snd (readDialed spareCap d drains s)) as [e|]; [now exists e|].
  now elim H.
Qed.







End ReaderFacts.

(** ** Supervisor: provisioning *)

Module ProvisionFacts.
Import Supervisor.

Definition soPath : string := "/data/local/tmp/minicap.so".

Definition soUrl (abi sdk : string) : string :=
  baseUrl +:+ "/minicap/shared/android-" +:+ sdk +:+ "/" +:+ abi +:+ "/minicap.so".

Definition exeUrl (abi : string) : string :=
  baseUrl +:+ "/minicap/bin/" +:+ abi +:+ "/minicap".

(** The world moved on without any file being pushed or created. *)
Definition quiet (w w' : World) : Prop :=
  files w' = files w /\ pushes (log w') = pushes (log w).

Lemma quiet_refl w : quiet w w.
Proof. split; reflexivity. Qed.

Lemma quiet_trans w1 w2 w3 : quiet w1 w2 -> quiet w2 w3 -> quiet w1 w3.
Proof. intros [F1 P1] [F2 P2]. split; congruence. Qed.

Lemma pushes_app l1 l2 : pushes (l1 ++ l2) = pushes l1 ++ pushes l2.
Proof. apply List.filter_app. Qed.

Lemma quiet_do a w :
  match a with ActPush _ _ _ => False | _ => True end -> quiet w (do a w).
Proof.
  intros Ha. split; [reflexivity|]. cbn [log do]. rewrite pushes_app.
  destruct a; try contradiction; cbn; now rewrite app_nil_r.
Qed.

Lemma quiet_killMinicap w : quiet w (snd (killMinicap w)).
Proof.
  eapply quiet_trans; [apply (quiet_do (ActKillProc "minicap")) |
                       apply (quiet_do (ActKillProc "slow-minicap"))]; exact I.
Qed.

Lemma quiet_runInfo path w : quiet w (snd (runInfo path w)).
Proof.
  unfold runInfo. pose proof (quiet_do (ActProbe path) w I) as H.
  destruct (probes (do (ActProbe path) w)); exact H.
Qed.

(** With the slow variant in place, [prepare] selects it and pushes
    nothing. *)
Lemma prepare_slow m w :
  slowCap ∈ files w ->
  binaryPath (fst (fst (fst (prepare m w)))) = slowCap /\
  quiet w (snd (prepare m w)).
Proof.
  intros Hs. unfold prepare, bind, isRemoteExists, ret.
  rewrite bool_decide_true by exact Hs.
  cbn [binaryPath set_binaryPath].
  pose proof (quiet_runInfo slowCap w) as Hq.
  destruct (runInfo slowCap w) as [[e|mi e|mi] w']; cbn in *; auto.
Qed.

Lemma prepareSafeFrom_slow n m w :
  slowCap ∈ files w ->
  binaryPath (fst (fst (fst (prepareSafeFrom n m w)))) = slowCap /\
  quiet w (snd (prepareSafeFrom n m w)).
Proof.
  funelim (prepareSafeFrom n m w); intros Hs;
    match goal with H : prepare ?m ?w = _ |- _ =>
      destruct (prepare_slow m w Hs) as [Hp Hq]; rewrite H in Hp, Hq;
      cbn [fst snd] in Hp, Hq end; auto.
  match goal with IH : _ -> _ /\ _ |- _ => destruct IH as [IHp IHq] end.
  - destruct Hq as [Hf _]. cbn. now rewrite Hf.
  - split; [exact IHp|].
    eapply quiet_trans; [exact Hq|].
    eapply quiet_trans; [|exact IHq].
    eapply quiet_trans; [apply quiet_killMinicap|].
    now apply (quiet_do (ActSleep 100)).
Qed.

Lemma quiet_launch m w : quiet w (snd (launch m w)).
Proof. now apply (quiet_do (ActLaunch (binaryPath m) (launchParam m))). Qed.

Lemma quiet_loopStep ev st m w : quiet w (snd (loopStep ev st m w)).
Proof.
  unfold loopStep. destruct ev as [out|r|].
  - destruct (negb (needRestart st)); [apply quiet_refl|apply quiet_launch].
  - apply quiet_killMinicap.
  - apply quiet_killMinicap.
Qed.

Lemma quiet_run m w : quiet w (snd (runScreenCaptureWithRotate m w)).
Proof.
  eapply quiet_trans; [apply quiet_killMinicap|apply (quiet_launch m)].
Qed.

Lemma quiet_handle ev m w : quiet w (snd (handle ev m w)).
Proof.
  unfold handle. destruct (loop m) as [st|]; [apply quiet_loopStep|].
  destruct (spawned m); [|apply quiet_refl].
  unfold bind. pose proof (quiet_run m w) as H.
  destruct (runScreenCaptureWithRotate m w) as [m' w']. cbn [snd] in H.
  eapply quiet_trans; [exact H|apply quiet_loopStep].
Qed.

Lemma quiet_handleAll evs : forall m w, quiet w (snd (handleAll evs m w)).
Proof.
  induction evs as [|ev evs IH]; intros m w; [apply quiet_refl|].
  cbn [handleAll]. unfold bind.
  pose proof (quiet_handle ev m w) as H.
  destruct (handle ev m w) as [m' w']. eapply quiet_trans; [exact H|apply IH].
Qed.

Lemma quiet_Start m w : slowCap ∈ files w -> quiet w (snd (Start m w)).
Proof.
  intros Hs. unfold Start, safeDo.
  destruct (inflight (mix m)); [apply quiet_refl|].
  unfold bind, prepareSafe.
  pose proof (quiet_killMinicap w) as Hk.
  destruct (killMinicap w) as [[] w1]. cbn [snd] in Hk.
  assert (slowCap ∈ files w1) as Hs1 by (destruct Hk as [-> _]; exact Hs).
  match goal with |- context [prepareSafeFrom 0 ?m0 w1] =>
    destruct (prepareSafeFrom_slow 0 m0 w1 Hs1) as [_ Hp];
    destruct (prepareSafeFrom 0 m0 w1) as [[[m2 mi] [e|]] w2] end;
    cbn [snd] in Hp; cbn.
  - eapply quiet_trans; eauto.
  - eapply quiet_trans; eauto.
Qed.

Lemma quiet_Stop m w : quiet w (snd (Stop m w)).
Proof.
  unfold Stop, safeDo.
  destruct (inflight (mix m)); [apply quiet_refl|].
  destruct (sendQuit _) as [k|]; [|apply quiet_refl].
  unfold bind.
  match goal with |- context [handle EvQuitC ?m0 w] =>
    pose proof (quiet_handle EvQuitC m0 w) as H;
    destruct (handle EvQuitC m0 w) as [m' w'] end.
  cbn [snd] in H. unfold ret. now destruct (Wait (mix m')).
Qed.

(** Start/Stop cycles of the supervisor; each session comes with the
    events its control loop receives between the two. *)
Fixpoint cycles (sessions : list (list loop_event)) (m : minicapDaemon)
  : M minicapDaemon :=
  match sessions with
  | [] => ret m
  | evs :: sessions' =>
      let* (m, _) := Start m in
      let* m := handleAll evs m in
      let* (m, _) := Stop m in
      cycles sessions' m
  end.

Lemma quiet_cycles sessions :
  forall m w, slowCap ∈ files w -> quiet w (snd (cycles sessions m w)).
Proof.
  induction sessions as [|evs sessions IH]; intros m w Hs; [apply quiet_refl|].
  cbn [cycles]. unfold bind.
  pose proof (quiet_Start m w Hs) as H1.
  destruct (Start m w) as [[m1 o1] w1]. cbn [snd] in H1.
  pose proof (quiet_handleAll evs m1 w1) as H2.
  destruct (handleAll evs m1 w1) as [m2 w2]. cbn [snd] in H2.
  pose proof (quiet_Stop m2 w2) as H3.
  destruct (Stop m2 w2) as [[m3 o3] w3]. cbn [snd] in H3.
  assert (quiet w w3) as Hq by eauto using quiet_trans.
  eapply quiet_trans; [exact Hq|]. apply IH.
  destruct Hq as [-> _]. exact Hs.
Qed.

(** The effect of one pass of the loop of [pushFiles] whose push
    succeeds. *)
Definition pushIfMissing (dst : string) (perms : Z) (url : string) (w : World)
  : World :=
  if bool_decide (dst ∈ files w) then w
  else with_files ({[dst]} ∪ files w) (do (ActPush dst perms url) w).

Lemma pushFiles_fast w p abi sdk :
  props w = Some p ->
  p !! "ro.product.cpu.abi" = Some abi ->
  p !! "ro.build.version.sdk" = Some sdk ->
  push_result w (soUrl abi sdk) = None ->
  push_result w (exeUrl abi) = None ->
  pushFiles w
  = (None,
     pushIfMissing fastCap perm_0755 (exeUrl abi)
       (pushIfMissing soPath perm_0644 (soUrl abi sdk) w)).
Proof.
  intros Hp Habi Hsdk Hso Hexe. unfold pushFiles. rewrite Hp, Habi, Hsdk.
  assert (forall w0, push_result w0 = push_result w ->
            pushEach abi sdk ["minicap"] w0
            = (None, pushIfMissing fastCap perm_0755 (exeUrl abi) w0)) as Hlast.
  { intros w0 Hw0. cbn [pushEach]. unfold bind, AdbFileExists, pushIfMissing.
    change ("/data/local/tmp/" +:+ "minicap") with fastCap.
    destruct (bool_decide (fastCap ∈ files w0)); [reflexivity|].
    cbn [String.eqb Ascii.eqb Bool.eqb fst snd]. unfold PushFileFromHTTP.
    change (baseUrl +:+ "/minicap/bin/" +:+ abi +:+ "/minicap") with (exeUrl abi).
    cbn [push_result do]. rewrite Hw0, Hexe. reflexivity. }
  cbn [pushEach]. unfold bind at 1. unfold AdbFileExists at 1.
  change ("/data/local/tmp/" +:+ "minicap.so") with soPath.
  unfold pushIfMissing at 2.
  destruct (bool_decide (soPath ∈ files w)); [now apply Hlast|].
  cbn [String.eqb Ascii.eqb Bool.eqb fst snd]. unfold bind, PushFileFromHTTP.
  change (baseUrl +:+ "/minicap/shared/android-" +:+ sdk +:+ "/" +:+ abi
                  +:+ "/minicap.so") with (soUrl abi sdk).
  cbn [push_result do]. rewrite Hso. now apply Hlast.
Qed.

Lemma pushes_pushIfMissing dst perms url w :
  pushes (log (pushIfMissing dst perms url w))
  = pushes (log w) ++
    (if bool_decide (dst ∈ files w) then [] else [ActPush dst perms url]).
Proof.
  unfold pushIfMissing. destruct (bool_decide _).
  - now rewrite app_nil_r.
  - cbn [log with_files do]. now rewrite pushes_app.
Qed.

Lemma files_pushIfMissing dst perms url w :
  files (pushIfMissing dst perms url w) = {[dst]} ∪ files w.
Proof.
  unfold pushIfMissing. case_bool_decide; [|reflexivity].
  apply leibniz_equiv. set_solver.
Qed.

(** Without the slow variant, [prepare] selects the fast one and pushes
    what is missing of its two files. *)
Lemma prepare_fast m w p abi sdk :
  slowCap ∉ files w ->
  props w = Some p ->
  p !! "ro.product.cpu.abi" = Some abi ->
  p !! "ro.build.version.sdk" = Some sdk ->
  push_result w (soUrl abi sdk) = None ->
  push_result w (exeUrl abi) = None ->
  binaryPath (fst (fst (fst (prepare m w)))) = fastCap /\
  pushes (log (snd (prepare m w)))
  = pushes (log w) ++
    (if bool_decide (soPath ∈ files w) then []
     else [ActPush soPath perm_0644 (soUrl abi sdk)]) ++
    (if bool_decide (fastCap ∈ files w) then []
     else [ActPush fastCap perm_0755 (exeUrl abi)]) /\
  files (snd (prepare m w)) = {[soPath; fastCap]} ∪ files w.
Proof.
  intros Hs Hp Habi Hsdk Hso Hexe. unfold prepare, bind, isRemoteExists, ret.
  rewrite bool_decide_false by exact Hs.
  rewrite (pushFiles_fast w p abi sdk) by assumption.
  set (w1 := pushIfMissing soPath perm_0644 (soUrl abi sdk) w).
  set (w2 := pushIfMissing fastCap perm_0755 (exeUrl abi) w1).
  cbn [binaryPath set_binaryPath].
  pose proof (quiet_runInfo fastCap w2) as [Hf Hl].
  assert (fastCap ∈ files w1 <-> fastCap ∈ files w) as Hiff.
  { unfold w1. rewrite files_pushIfMissing.
    assert (fastCap <> soPath) by discriminate. set_solver. }
  assert (pushes (log w2)
          = pushes (log w) ++
            (if bool_decide (soPath ∈ files w) then []
             else [ActPush soPath perm_0644 (soUrl abi sdk)]) ++
            (if bool_decide (fastCap ∈ files w) then []
             else [ActPush fastCap perm_0755 (exeUrl abi)])) as Hpush.
  { unfold w2, w1. rewrite !pushes_pushIfMissing, <- app_assoc.
    now rewrite (bool_decide_ext _ _ Hiff). }
  assert (files w2 = {[soPath; fastCap]} ∪ files w) as Hfiles.
  { unfold w2, w1. rewrite !files_pushIfMissing.
    apply leibniz_equiv. set_solver. }
  destruct (runInfo fastCap w2) as [[e|mi e|mi] w3]; cbn in *;
    rewrite Hf, Hl; auto.
Qed.

(** The execute bits of a file mode, octal 111. *)
Definition execBits : Z := 64 + 8 + 1.

(** C8.  With the slow variant at /data/local/tmp/slow-minicap, [prepare]
    selects it and pushes nothing.  Without it, [prepare] selects the fast
    variant and, the device properties being readable and the pushes
    succeeding, pushes minicap.so (from the URL keyed by SDK and ABI, mode
    0644) and minicap (from the URL keyed by ABI, mode 0755) in that order,
    each only if it is not on the device yet; only mode 0755 carries
    execute bits.  With the slow variant present (in particular when both
    variants are), no number of Start/Stop cycles, whatever happens in
    between, pushes a file. *)
Theorem provisioning (m : minicapDaemon) (w : World) :
  (slowCap ∈ files w ->
   binaryPath (fst (fst (fst (prepare m w)))) = slowCap /\
   quiet w (snd (prepare m w))) /\
  (slowCap ∉ files w ->
   forall p abi sdk,
     props w = Some p ->
     p !! "ro.product.cpu.abi" = Some abi ->
     p !! "ro.build.version.sdk" = Some sdk ->
     push_result w (soUrl abi sdk) = None ->
     push_result w (exeUrl abi) = None ->
     binaryPath (fst (fst (fst (prepare m w)))) = fastCap /\
     pushes (log (snd (prepare m w)))
     = pushes (log w) ++
       (if bool_decide (soPath ∈ files w) then []
        else [ActPush soPath perm_0644 (soUrl abi sdk)]) ++
       (if bool_decide (fastCap ∈ files w) then []
        else [ActPush fastCap perm_0755 (exeUrl abi)]) /\
     files (snd (prepare m w)) = {[soPath; fastCap]} ∪ files w) /\
  (Z.land perm_0644 execBits = 0 /\ Z.land perm_0755 execBits = execBits) /\
  (slowCap ∈ files w ->
   forall sessions,
     pushes (log (snd (cycles sessions m w))) = pushes (log w) /\
     files (snd (cycles sessions m w)) = files w).
Proof.
  split; [|split; [|split]].
  - apply prepare_slow.
  - intros Hs p abi sdk. now apply prepare_fast.
  - split; reflexivity.
  - intros Hs sessions. destruct (quiet_cycles sessions m w Hs). auto.
Qed.

(** A device with both variants in place, and one with the executable of
    the fast variant only. *)
Definition bothVariants : World :=
  with_files {[slowCap; fastCap; soPath]} SupervisorFacts.emptyWorld.

Definition deviceProps : gmap string string :=
  {[ "ro.product.cpu.abi" := "arm64-v8a"; "ro.build.version.sdk" := "23" ]}.

Definition fastExeOnly : World :=
  mkWorld {[fastCap]} (Some deviceProps)
          [ProbeOk SupervisorFacts.info1080]
          (fun _ => None) (fun _ => (0, None)) (fun _ => 512%nat) [].

Lemma provisioning_witness :
  binaryPath (fst (fst (fst (prepare newMinicapDaemon bothVariants)))) = slowCap /\
  pushes (log (snd (cycles [[]; [EvRotationC 1; EvErrC SupervisorFacts.processKilled]]
                      newMinicapDaemon bothVariants))) = [] /\
  pushes (log (snd (prepare newMinicapDaemon fastExeOnly)))
  = [ActPush soPath 420
       "https://gohttp.nie.netease.com/openstf/vendor/minicap/shared/android-23/arm64-v8a/minicap.so"].
Proof.
  assert (slowCap ∈ files bothVariants) as Hboth
    by compute_done.
  assert (slowCap ∉ files fastExeOnly) as Hfast
    by compute_done.
  split; [|split].
  - exact (proj1 (proj1 (provisioning newMinicapDaemon bothVariants) Hboth)).
  - exact (proj1 (proj2 (proj2 (proj2 (provisioning newMinicapDaemon bothVariants)))
                    Hboth _)).
  - exact (proj1 (proj2 (proj1 (proj2 (provisioning newMinicapDaemon fastExeOnly))
                            Hfast deviceProps "arm64-v8a" "23"
                            eq_refl eq_refl eq_refl eq_refl eq_refl))).
Defined.

End ProvisionFacts.

(** ** Coordinator: start and stop *)

Module CoordinatorFacts.
Import Coordinator.
Import ProvisionFacts.

(** The slow variant is there after as it was before. *)
Definition sameSlow (w w' : World) : Prop :=
  Supervisor.slowCap ∈ files w' <-> Supervisor.slowCap ∈ files w.

Lemma sameSlow_refl w : sameSlow w w.
Proof. unfold sameSlow. tauto. Qed.

Lemma sameSlow_trans w1 w2 w3 : sameSlow w1 w2 -> sameSlow w2 w3 -> sameSlow w1 w3.
Proof. unfold sameSlow. tauto. Qed.

Lemma sameSlow_files w w' : files w' = files w -> sameSlow w w'.
Proof. unfold sameSlow. now intros ->. Qed.

Lemma sameSlow_push dst perms url w :
  dst <> Supervisor.slowCap ->
  sameSlow w (snd (Supervisor.PushFileFromHTTP dst perms url w)).
Proof.
  intros Hne. unfold Supervisor.PushFileFromHTTP.
  destruct (push_result _ url); [now apply sameSlow_files|].
  unfold sameSlow. cbn. set_solver.
Qed.

Lemma sameSlow_pushEach abi sdk filenames :
  Forall (fun f => "/data/local/tmp/" +:+ f <> Supervisor.slowCap) filenames ->
  forall w, sameSlow w (snd (Supervisor.pushEach abi sdk filenames w)).
Proof.
  induction 1 as [|f fs Hf _ IH]; intros w; [apply sameSlow_refl|].
  cbn [Supervisor.pushEach]. unfold bind, Supervisor.AdbFileExists.
  destruct (bool_decide _); [apply IH|].
  match goal with |- context [Supervisor.PushFileFromHTTP ?d ?p ?u w] =>
    pose proof (sameSlow_push d p u w Hf) as Hp;
    destruct (Supervisor.PushFileFromHTTP d p u w) as [[e|] w1] end;
    cbn [snd] in Hp; [exact Hp|].
  eapply sameSlow_trans; [exact Hp|apply IH].
Qed.

Lemma sameSlow_pushFiles w : sameSlow w (snd (Supervisor.pushFiles w)).
Proof.
  unfold Supervisor.pushFiles.
  destruct (props w) as [p|]; [|apply sameSlow_refl].
  destruct (p !! _) as [abi|]; [|apply sameSlow_refl].
  destruct (p !! _) as [sdk|]; [|apply sameSlow_refl].
  apply sameSlow_pushEach. repeat constructor; discriminate.
Qed.

(** The variant [prepare] selects is the slow one exactly when it is on
    the device. *)
Definition selected (w : World) : string :=
  if bool_decide (Supervisor.slowCap ∈ files w) then Supervisor.slowCap
  else Supervisor.fastCap.

Lemma prepare_selects m w :
  Supervisor.binaryPath (fst (fst (fst (Supervisor.prepare m w)))) = selected w /\
  sameSlow w (snd (Supervisor.prepare m w)).
Proof.
  unfold Supervisor.prepare, bind, Supervisor.isRemoteExists, selected, ret.
  destruct (bool_decide _).
  - pose proof (quiet_runInfo Supervisor.slowCap w) as [Hf _].
    cbn [Supervisor.binaryPath Supervisor.set_binaryPath].
    destruct (Supervisor.runInfo _ w) as [[e|mi e|mi] w']; cbn in *;
      auto using sameSlow_files.
  - pose proof (sameSlow_pushFiles w) as Hp.
    destruct (Supervisor.pushFiles w) as [[e|] w1]; cbn [snd] in Hp;
      [cbn; auto|].
    cbn [Supervisor.binaryPath Supervisor.set_binaryPath].
    pose proof (quiet_runInfo Supervisor.fastCap w1) as [Hf _].
    destruct (Supervisor.runInfo _ w1) as [[e|mi e|mi] w']; cbn in *;
      (split; [reflexivity|]);
      (eapply sameSlow_trans; [exact Hp|now apply sameSlow_files]).
Qed.

Lemma selected_sameSlow w w' : sameSlow w w' -> selected w' = selected w.
Proof. intros H. unfold selected. now rewrite (bool_decide_ext _ _ H). Qed.

Lemma prepareSafeFrom_selects n m w :
  Supervisor.binaryPath (fst (fst (fst (Supervisor.prepareSafeFrom n m w))))
  = selected w /\
  sameSlow w (snd (Supervisor.prepareSafeFrom n m w)).
Proof.
  funelim (Supervisor.prepareSafeFrom n m w);
    match goal with H : Supervisor.prepare ?m ?w = _ |- _ =>
      destruct (prepare_selects m w) as [Hp Hq]; rewrite H in Hp, Hq;
      cbn [fst snd] in Hp, Hq end; auto.
  match goal with IH : _ /\ _ |- _ => destruct IH as [IHp IHq] end.
  assert (sameSlow w (do (ActSleep 100) (snd (Supervisor.killMinicap w')))) as Hw
    by (eapply sameSlow_trans; [exact Hq|now apply sameSlow_files]).
  split.
  - rewrite IHp. now apply selected_sameSlow.
  - eapply sameSlow_trans; [exact Hw|exact IHq].
Qed.

(** A start of the supervisor that succeeds has selected the variant. *)
Lemma Start_selects m w d w1 :
  Supervisor.Start m w = (d, Returned None, w1) ->
  Supervisor.binaryPath d = selected w.
Proof.
  unfold Supervisor.Start, safeDo.
  destruct (inflight (Supervisor.mix m)); [discriminate|].
  unfold bind, Supervisor.prepareSafe.
  destruct (Supervisor.killMinicap w) as [[] w0] eqn:Ek.
  assert (selected w0 = selected w) as Hsel.
  { apply selected_sameSlow, sameSlow_files.
    apply (f_equal snd) in Ek. cbn in Ek. now subst w0. }
  match goal with |- context [Supervisor.prepareSafeFrom 0 ?m0 w0] =>
    destruct (prepareSafeFrom_selects 0 m0 w0) as [Hp _];
    destruct (Supervisor.prepareSafeFrom 0 m0 w0) as [[[m2 mi] [e|]] w2] end;
    cbn [fst] in Hp; cbn; [discriminate|].
  intros [= <- _]. cbn. congruence.
Qed.

Lemma Start_returns m w : snd (fst (Supervisor.Start m w)) <> Blocked.
Proof.
  unfold Supervisor.Start, safeDo.
  destruct (inflight (Supervisor.mix m)); [discriminate|].
  unfold bind, Supervisor.prepareSafe.
  destruct (Supervisor.killMinicap w) as [[] w0].
  destruct (Supervisor.prepareSafeFrom _ _ _) as [[[m2 mi] [e|]] w2]; cbn;
    discriminate.
Qed.

(** The transport of each variant. *)
Definition transport (w : World) : ForwardSpec :=
  if bool_decide (Supervisor.slowCap ∈ files w)
  then mkForwardSpec FProtocolTcp "2016"
  else mkForwardSpec FProtocolAbstract "minicap".

(** A start of the reader keeps the transport it was given, and the first
    thing it does, unless a start or stop is in flight on it, is to set up
    the forwarding for that transport. *)
Lemma ReaderStart_forward j w :
  Reader.forwardSpec (fst (fst (Reader.Start j w))) = Reader.forwardSpec j /\
  (inflight (Reader.mix j) = false ->
   exists tail,
     log (snd (Reader.Start j w))
     = log w ++ ActForward (Reader.forwardSpec j) :: tail).
Proof.
  unfold Reader.Start, safeDo.
  destruct (inflight (Reader.mix j)); [split; [reflexivity|discriminate]|].
  unfold bind, Reader.prepareForward.
  cbn [Reader.forwardSpec Reader.set_quitC Reader.set_C Reader.set_mix].
  destruct (forward_result w (Reader.forwardSpec j)) as [port [e|]]; cbn.
  - split; [reflexivity|]. intros _. now exists [].
  - split; [reflexivity|]. intros _. now exists [].
Qed.

(** C9.  [Start] starts the supervisor first.  If that fails, [Start]
    returns the supervisor's error at once: the reader is left as it was
    and nothing more is done to the device.  If it succeeds, the supervisor
    has selected its variant (the slow one exactly when it is on the
    device), and only then is the reader given its transport, the
    loopback port 2016 for the slow variant and the abstract socket
    "minicap" for the fast one, and started: the reader's forwarding comes
    after everything the supervisor's start did (the task that start
    created runs later, on its own). *)
Theorem Start_sequence (s : STFCapturer) (w : World)
    (d : Supervisor.minicapDaemon) (o1 : outcome) (w1 : World) :
  Supervisor.Start (daemon s) w = (d, o1, w1) ->
  o1 <> Blocked /\
  (forall e, o1 = Returned (Some e) ->
             Start s w = (mkCapturer d (sucker s), Returned (Some e), w1)) /\
  (o1 = Returned None ->
   Supervisor.binaryPath d = selected w /\
   (let '(j, o2, w2) :=
      Reader.Start (Reader.set_forwardSpec (transport w) (sucker s)) w1 in
    Start s w = (mkCapturer d j, o2, w2)) /\
   Reader.forwardSpec (sucker (fst (fst (Start s w)))) = transport w /\
   (inflight (Reader.mix (sucker s)) = false ->
    exists tail,
      log (snd (Start s w)) = log w1 ++ ActForward (transport w) :: tail)).
Proof.
  intros H1. split; [|split].
  - pose proof (Start_returns (daemon s) w) as Hr. now rewrite H1 in Hr.
  - intros e ->. unfold Start, bind. now rewrite H1.
  - intros ->. pose proof (Start_selects _ _ _ _ H1) as Hsel.
    split; [exact Hsel|].
    assert ((if String.eqb (Supervisor.binaryPath d) "/data/local/tmp/slow-minicap"
             then mkForwardSpec FProtocolTcp "2016"
             else mkForwardSpec FProtocolAbstract "minicap") = transport w) as Hspec.
    { rewrite Hsel. unfold selected, transport.
      now destruct (bool_decide _). }
    unfold Start, bind. rewrite H1, Hspec.
    destruct (ReaderStart_forward
                (Reader.set_forwardSpec (transport w) (sucker s)) w1)
      as [Hf Hl].
    destruct (Reader.Start _ w1) as [[j o2] w2].
    cbn [fst snd sucker] in *. auto.
Qed.

(** A device with the fast variant whose info probe answers, and one
    whose probe never does. *)
Definition probeFails : World := with_probes [] fastExeOnly.

Lemma pair3_eta {A B C : Type} (r : A * B * C) :
  r = (fst (fst r), snd (fst r), snd r).
Proof. now destruct r as [[? ?] ?]. Qed.

Lemma Start_sequence_witness :
  Reader.forwardSpec (sucker (fst (fst (Start NewSTFCapturer fastExeOnly))))
  = mkForwardSpec FProtocolAbstract "minicap" /\
  (exists e,
      Start NewSTFCapturer probeFails
      = (mkCapturer
           (fst (fst (Supervisor.Start (daemon NewSTFCapturer) probeFails)))
           (sucker NewSTFCapturer),
         Returned (Some e),
         snd (Supervisor.Start (daemon NewSTFCapturer) probeFails))).
Proof.
  split.
  - assert (transport fastExeOnly = mkForwardSpec FProtocolAbstract "minicap")
      as <- by (vm_compute; reflexivity).
    pose proof (Start_sequence NewSTFCapturer fastExeOnly _ _ _ (pair3_eta _))
      as (_ & _ & H).
    destruct H as (_ & _ & H & _); [vm_compute; reflexivity|].
    exact H.
  - exists (ErrWrap (ErrWrap (ErrExternal "no answer") "run minicap -i")
                    "prepare minicap").
    pose proof (Start_sequence NewSTFCapturer probeFails _ _ _ (pair3_eta _))
      as (_ & H & _).
    apply H. vm_compute. reflexivity.
Defined.

(** *** Stop *)

Lemma wrapMultiError_two (e1 e2 : option error) :
  (wrapMultiError [e1; e2] = None <-> e1 = None /\ e2 = None) /\
  (forall e, e1 = Some e \/ e2 = Some e ->
             exists es, wrapMultiError [e1; e2] = Some (ErrMulti es) /\ In e es).
Proof.
  split.
  - destruct e1 as [a|], e2 as [b|]; cbn; split;
      try discriminate; try (intros [? ?]; discriminate); auto.
  - intros e He.
    destruct e1 as [a|], e2 as [b|]; cbn;
      destruct He as [He|He]; try discriminate; injection He as ->;
      eexists; (split; [reflexivity|]); cbn; auto.
Qed.

(** C10.  [Stop] stops the supervisor, then the reader, whatever the
    supervisor's stop returned; its result combines the two errors: it is
    nil only when both are, and otherwise holds each error that was
    returned. *)
Theorem Stop_combines (s : STFCapturer) (w : World)
    (d : Supervisor.minicapDaemon) (e1 : option error) (w1 : World)
    (j : Reader.jpgTcpSucker) (e2 : option error) (w2 : World) :
  Supervisor.Stop (daemon s) w = (d, Returned e1, w1) ->
  Reader.Stop (sucker s) w1 = (j, Returned e2, w2) ->
  Stop s w = (mkCapturer d j, Returned (wrapMultiError [e1; e2]), w2) /\
  (wrapMultiError [e1; e2] = None <-> e1 = None /\ e2 = None) /\
  (forall e, e1 = Some e \/ e2 = Some e ->
             exists es, wrapMultiError [e1; e2] = Some (ErrMulti es) /\ In e es).
Proof.
  intros H1 H2. split; [|apply wrapMultiError_two].
  unfold Stop, bind. now rewrite H1, H2.
Qed.

(** A running session whose supervisor has a start or stop in flight: its
    stop fails with AlreadyRunning; the reader is stopped all the same. *)
Definition busySession : STFCapturer :=
  let s := fst (fst (Start NewSTFCapturer fastExeOnly)) in
  mkCapturer (Supervisor.set_mix (mkMixins true None) (daemon s)) (sucker s).

Definition busyWorld : World := snd (Start NewSTFCapturer fastExeOnly).

Lemma returned_eta {A C : Type} (r : A * outcome * C) (e : option error) :
  snd (fst r) = Returned e -> r = (fst (fst r), Returned e, snd r).
Proof. destruct r as [[a o] c]. cbn. now intros ->. Qed.

Lemma Stop_combines_witness :
  Stop busySession busyWorld
  = (mkCapturer
       (fst (fst (Supervisor.Stop (daemon busySession) busyWorld)))
       (fst (fst (Reader.Stop (sucker busySession)
                    (snd (Supervisor.Stop (daemon busySession) busyWorld))))),
     Returned (Some (ErrMulti [ErrAlreadyRunning])),
     snd (Reader.Stop (sucker busySession)
            (snd (Supervisor.Stop (daemon busySession) busyWorld)))) /\
  Reader.loop (sucker (fst (fst (Stop busySession busyWorld)))) = None.
Proof.
  assert (snd (fst (Supervisor.Stop (daemon busySession) busyWorld))
          = Returned (Some ErrAlreadyRunning)) as H1
    by (vm_compute; reflexivity).
  assert (snd (fst (Reader.Stop (sucker busySession)
                      (snd (Supervisor.Stop (daemon busySession) busyWorld))))
          = Returned None) as H2
    by (vm_compute; reflexivity).
  pose proof (Stop_combines busySession busyWorld _ _ _ _ _ _
                (returned_eta _ _ H1) (returned_eta _ _ H2)) as (H & _).
  split; [exact H|].
  rewrite H. vm_compute. reflexivity.
Defined.

End CoordinatorFacts.

(** * Further properties of the code *)

(** ** Supervisor: the probe with retry *)

Module PrepareFacts.
Import Supervisor.

(** How often the actions selected by [p] occur in a log. *)
Definition count (p : action -> bool) (l : list action) : nat :=
  length (List.filter p l).

Definition isSleep (a : action) : bool :=
  match a with ActSleep _ => true | _ => false end.

Definition isProbe (a : action) : bool :=
  match a with ActProbe _ => true | _ => false end.

Definition isKill (a : action) : bool :=
  match a with ActKillProc _ => true | _ => false end.

Definition isPush (a : action) : bool :=
  match a with ActPush _ _ _ => true | _ => false end.

Definition isLaunch (a : action) : bool :=
  match a with ActLaunch _ _ => true | _ => false end.

Lemma count_app p l1 l2 : count p (l1 ++ l2) = (count p l1 + count p l2)%nat.
Proof. unfold count. now rewrite List.filter_app, length_app. Qed.

(** The world moved on by the actions [l] and nothing else was logged. *)
Definition logged (w w' : World) (l : list action) : Prop :=
  log w' = log w ++ l.

Lemma logged_nil w : logged w w [].
Proof. unfold logged. now rewrite app_nil_r. Qed.

Lemma logged_trans w1 w2 w3 l1 l2 :
  logged w1 w2 l1 -> logged w2 w3 l2 -> logged w1 w3 (l1 ++ l2).
Proof. unfold logged. intros -> ->. now rewrite app_assoc. Qed.

Lemma logged_do a w : logged w (do a w) [a].
Proof. reflexivity. Qed.

(** [pushEach] logs pushes only. *)
Lemma pushEach_logged abi sdk filenames :
  forall w, exists l,
    logged w (snd (pushEach abi sdk filenames w)) l /\ Forall (fun a => isPush a = true) l.
Proof.
  induction filenames as [|f fs IH]; intros w.
  - exists []. split; [apply logged_nil|constructor].
  - cbn [pushEach]. unfold bind, AdbFileExists.
    destruct (bool_decide _); [apply IH|].
    unfold PushFileFromHTTP.
    match goal with |- context [ActPush ?d ?p ?u] => set (a := ActPush d p u) end.
    destruct (push_result (do a w) _) as [e|].
    + exists [a]. split; [reflexivity|]. now repeat constructor.
    + match goal with |- context [pushEach abi sdk fs ?w1] =>
        destruct (IH w1) as (l & Hl & Hp) end.
      exists (a :: l). split.
      * unfold logged in *. rewrite Hl. cbn. now rewrite <- app_assoc.
      * now constructor.
Qed.

Lemma pushFiles_logged w :
  exists l, logged w (snd (pushFiles w)) l /\ Forall (fun a => isPush a = true) l.
Proof.
  unfold pushFiles.
  destruct (props w) as [p|]; [|exists []; split; [apply logged_nil|constructor]].
  destruct (p !! _) as [abi|]; [|exists []; split; [apply logged_nil|constructor]].
  destruct (p !! _) as [sdk|]; [|exists []; split; [apply logged_nil|constructor]].
  apply pushEach_logged.
Qed.

Lemma runInfo_logged path w : logged w (snd (runInfo path w)) [ActProbe path].
Proof. unfold runInfo. now destruct (probes (do (ActProbe path) w)). Qed.

(** One [prepare] logs pushes, then at most one probe. *)
Lemma prepare_logged m w :
  exists l,
    logged w (snd (prepare m w)) l /\
    count isSleep l = 0%nat /\ count isKill l = 0%nat /\
    count isLaunch l = 0%nat /\ (count isProbe l <= 1)%nat.
Proof.
  unfold prepare, bind, isRemoteExists, ret.
  destruct (bool_decide _).
  - pose proof (runInfo_logged slowCap w) as H.
    cbn [binaryPath set_binaryPath].
    exists [ActProbe slowCap].
    destruct (runInfo slowCap w) as [[e|mi e|mi] w']; cbn in *;
      repeat split; auto; lia.
  - destruct (pushFiles_logged w) as (l & Hl & Hp).
    assert (forall p, (forall d q u, p (ActPush d q u) = false) -> count p l = 0%nat)
      as Hz.
    { intros p Hpn. clear Hl. induction Hp as [|a l Ha _ IH]; [reflexivity|].
      destruct a; try discriminate. unfold count in *. cbn. now rewrite Hpn. }
    assert (count isSleep l = 0%nat /\ count isKill l = 0%nat /\
            count isLaunch l = 0%nat /\ count isProbe l = 0%nat)
      as (Hs & Hk & Hla & Hpr) by (repeat split; apply Hz; reflexivity).
    destruct (pushFiles w) as [[e|] w1]; cbn [snd] in Hl.
    + exists l. cbn [snd]. rewrite Hs, Hk, Hla, Hpr. repeat split; auto; lia.
    + cbn [binaryPath set_binaryPath].
      pose proof (runInfo_logged fastCap w1) as H.
      exists (l ++ [ActProbe fastCap]).
      rewrite !count_app, Hs, Hk, Hla, Hpr.
      destruct (runInfo fastCap w1) as [[e|mi e|mi] w']; cbn in *;
        (split; [eapply logged_trans; eauto|repeat split; auto; lia]).
Qed.

(** [prepareSafeFrom], one pass unfolded. *)
Lemma prepareSafeFrom_step n m w :
  prepareSafeFrom n m w =
  match prepare m w with
  | ((m', mi, None), w') => ((m', mi, None), w')
  | ((m', mi, Some e), w') =>
      if n >=? 3 then ((m', mi, Some e), w')
      else prepareSafeFrom (n + 1) m' (do (ActSleep 100) (snd (killMinicap w')))
  end.
Proof.
  funelim (prepareSafeFrom n m w);
    try match goal with H : prepare _ _ = _ |- _ => rewrite H end;
    try match goal with H : (_ >=? _) = _ |- _ => rewrite H end;
    reflexivity.
Qed.

(** One round between two attempts of [prepareSafe]. *)
Definition retryRound : list action :=
  [ActKillProc "minicap"; ActKillProc "slow-minicap"; ActSleep 100].

Lemma retryRound_logged w :
  logged w (do (ActSleep 100) (snd (killMinicap w))) retryRound.
Proof. unfold logged. cbn. now rewrite <- !app_assoc. Qed.

Lemma prepareSafeFrom_logged (k : nat) :
  forall n m w,
    Z.to_nat (3 - n) = k ->
    exists l,
      logged w (snd (prepareSafeFrom n m w)) l /\
      (count isSleep l <= k)%nat /\
      (count isProbe l <= k + 1)%nat /\
      count isKill l = (2 * count isSleep l)%nat /\
      count isLaunch l = 0%nat /\
      (snd (fst (prepareSafeFrom n m w)) <> None -> count isSleep l = k).
Proof.
  induction k as [|k IH]; intros n m w Hk; rewrite prepareSafeFrom_step;
    destruct (prepare_logged m w) as (l0 & Hl0 & Hs0 & Hk0 & Hla0 & Hp0);
    destruct (prepare m w) as [[[m' mi] [e|]] w']; cbn [snd fst] in *.
  - replace (n >=? 3) with true by (symmetry; apply Z.geb_le; lia).
    exists l0. cbn [snd fst]. repeat split; auto; try lia.
  - exists l0. repeat split; auto; try lia; try (intros H; now elim H).
  - replace (n >=? 3) with false by (symmetry; rewrite Z.geb_leb; apply Z.leb_gt; lia).
    destruct (IH (n + 1) m' (do (ActSleep 100) (snd (killMinicap w'))))
      as (l1 & Hl1 & Hs1 & Hp1 & Hk1 & Hla1 & He1); [lia|].
    exists (l0 ++ retryRound ++ l1). split.
    + eapply logged_trans; [exact Hl0|].
      eapply (logged_trans _ (do (ActSleep 100) (snd (killMinicap w'))));
        [apply retryRound_logged|exact Hl1].
    + rewrite !count_app, Hs0, Hk0, Hla0.
      change (count isSleep retryRound) with 1%nat.
      change (count isKill retryRound) with 2%nat.
      change (count isLaunch retryRound) with 0%nat.
      change (count isProbe retryRound) with 0%nat.
      repeat split; try lia. intros H. specialize (He1 H). lia.
  - exists l0. repeat split; auto; try lia; try (intros H; now elim H).
Qed.

(** X1.  [prepareSafe] probes the device at most 4 times and sleeps at
    most 3 times; each sleep comes with one [killMinicap]; it launches
    nothing; and when it returns an error it has gone through all 3
    kill-and-sleep rounds. *)
Theorem prepareSafe_bounded (m : minicapDaemon) (w : World) :
  exists l,
    log (snd (prepareSafe m w)) = log w ++ l /\
    (count isSleep l <= 3)%nat /\
    (count isProbe l <= 4)%nat /\
    count isKill l = (2 * count isSleep l)%nat /\
    count isLaunch l = 0%nat /\
    (snd (fst (prepareSafe m w)) <> None -> count isSleep l = 3%nat).
Proof. exact (prepareSafeFrom_logged 3 0 m w eq_refl). Qed.

(** [prepare] with the slow variant in place and an answer pending. *)
Lemma prepare_slow_answer m w r rest :
  slowCap ∈ files w ->
  probes w = r :: rest ->
  prepare m w =
  (match r with
   | ProbeRunErr e =>
       (set_binaryPath slowCap m, zeroInfo, Wrap (Some e) "run minicap -i")
   | ProbeBadJson mi e => (set_binaryPath slowCap m, mi, Some e)
   | ProbeOk mi => (set_binaryPath slowCap m, mi, None)
   end,
   with_probes rest (do (ActProbe slowCap) w)).
Proof.
  intros Hs Hp. unfold prepare, bind, isRemoteExists, ret.
  rewrite bool_decide_true by exact Hs.
  cbn [binaryPath set_binaryPath]. unfold runInfo. cbn [probes do].
  rewrite Hp. now destruct r.
Qed.

(** What the attempts that fail leave in the log, one per error. *)
Definition failedProbes (es : list error) : list action :=
  flat_map (fun _ => ActProbe slowCap :: retryRound) es.

Lemma prepareSafeFrom_answers (es : list error) :
  forall n m w mi rest,
    slowCap ∈ files w ->
    probes w = map ProbeRunErr es ++ ProbeOk mi :: rest ->
    n + Z.of_nat (length es) <= 3 ->
    let r := prepareSafeFrom n m w in
    fst r = (set_binaryPath slowCap m, mi, None) /\
    log (snd r) = log w ++ failedProbes es ++ [ActProbe slowCap] /\
    probes (snd r) = rest /\
    files (snd r) = files w.
Proof.
  induction es as [|e es IH]; intros n m w mi rest Hs Hp Hn;
    cbn zeta; rewrite prepareSafeFrom_step;
    rewrite (prepare_slow_answer m w _ _ Hs Hp).
  - cbn. auto.
  - cbn [Wrap map app].
    replace (n >=? 3) with false
      by (symmetry; rewrite Z.geb_leb; apply Z.leb_gt; cbn [length] in Hn; lia).
    match goal with |- context [prepareSafeFrom (n + 1) ?m1 ?w1] =>
      destruct (IH (n + 1) m1 w1 mi rest) as (H1 & H2 & H3 & H4) end;
      [exact Hs | reflexivity | cbn [length] in Hn; lia |].
    rewrite H1, H2, H3, H4. cbn. rewrite <- !app_assoc. auto.
Qed.

(** X2.  With the slow variant in place, if the device fails to answer
    the info probe at most 3 times and then answers, [prepareSafe] returns
    that answer: it has probed once per failure and once more, with one
    kill-and-sleep round after each failure, and has used up exactly those
    answers. *)
Theorem prepareSafe_retries_until_answer (m : minicapDaemon) (w : World)
    (es : list error) (mi : minicapInfo) (rest : list probe_result) :
  slowCap ∈ files w ->
  probes w = map ProbeRunErr es ++ ProbeOk mi :: rest ->
  (length es <= 3)%nat ->
  fst (prepareSafe m w) = (set_binaryPath slowCap m, mi, None) /\
  log (snd (prepareSafe m w)) = log w ++ failedProbes es ++ [ActProbe slowCap] /\
  probes (snd (prepareSafe m w)) = rest /\
  files (snd (prepareSafe m w)) = files w.
Proof.
  intros Hs Hp Hl. apply (prepareSafeFrom_answers es 0 m w mi rest Hs Hp). lia.
Qed.

Definition busy : error := ErrExternal "resource busy".

Definition busyTwice : World :=
  with_probes [ProbeRunErr busy; ProbeRunErr busy;
               ProbeOk SupervisorFacts.info1080]
              ProvisionFacts.bothVariants.

Lemma prepareSafe_retries_until_answer_witness :
  fst (prepareSafe newMinicapDaemon busyTwice)
  = (set_binaryPath slowCap newMinicapDaemon, SupervisorFacts.info1080, None) /\
  log (snd (prepareSafe newMinicapDaemon busyTwice))
  = log busyTwice ++ failedProbes [busy; busy] ++ [ActProbe slowCap] /\
  probes (snd (prepareSafe newMinicapDaemon busyTwice)) = [] /\
  files (snd (prepareSafe newMinicapDaemon busyTwice)) = files busyTwice.
Proof.
  assert (slowCap ∈ files busyTwice) as Hs by compute_done.
  assert ((length [busy; busy] <= 3)%nat) as Hl by (cbn; lia).
  exact (prepareSafe_retries_until_answer newMinicapDaemon busyTwice
           [busy; busy] SupervisorFacts.info1080 [] Hs eq_refl Hl).
Defined.

End PrepareFacts.

(** ** Supervisor: provisioning failures *)

Module PushFacts.
Import Supervisor.
Import PrepareFacts.
Import ProvisionFacts.










(** X4.  When the push of minicap.so fails, [pushFiles] returns that error
    at once: it is the only push attempted, no file appears on the device,
    and [prepare] runs no probe. *)
Theorem push_failure_stops (m : minicapDaemon) (w : World)
    (p : gmap string string) (abi sdk : string) (e : error) :
  slowCap ∉ files w ->
  soPath ∉ files w ->
  props w = Some p ->
  p !! "ro.product.cpu.abi" = Some abi ->
  p !! "ro.build.version.sdk" = Some sdk ->
  push_result w (soUrl abi sdk) = Some e ->
  pushFiles w = (Some e, do (ActPush soPath perm_0644 (soUrl abi sdk)) w) /\
  prepare m w
  = ((set_binaryPath fastCap m, zeroInfo, Some e),
     do (ActPush soPath perm_0644 (soUrl abi sdk)) w).
Proof.
  intros Hs Hso Hp Habi Hsdk He.
  assert (pushFiles w = (Some e, do (ActPush soPath perm_0644 (soUrl abi sdk)) w))
    as Hpush.
  { unfold pushFiles. rewrite Hp, Habi, Hsdk. cbn [pushEach].
    unfold bind, AdbFileExists.
    change ("/data/local/tmp/" +:+ "minicap.so") with soPath.
    rewrite bool_decide_false by exact Hso.
    cbn [String.eqb Ascii.eqb Bool.eqb fst snd]. unfold PushFileFromHTTP.
    change (baseUrl +:+ "/minicap/shared/android-" +:+ sdk +:+ "/" +:+ abi
                    +:+ "/minicap.so") with (soUrl abi sdk).
    cbn [push_result do]. now rewrite He. }
  split; [exact Hpush|].
  unfold prepare, bind, isRemoteExists, ret.
  rewrite bool_decide_false by exact Hs. now rewrite Hpush.
Qed.

Definition hostDown : error := ErrExternal "artifact host unreachable".

Definition pushFails : World :=
  mkWorld ∅ (Some deviceProps) [ProbeOk SupervisorFacts.info1080]
          (fun _ => Some hostDown) (fun _ => (0, None)) (fun _ => 512%nat) [].

Lemma push_failure_stops_witness :
  pushFiles pushFails
  = (Some hostDown,
     do (ActPush soPath perm_0644 (soUrl "arm64-v8a" "23")) pushFails) /\
  prepare newMinicapDaemon pushFails
  = ((set_binaryPath fastCap newMinicapDaemon, zeroInfo, Some hostDown),
     do (ActPush soPath perm_0644 (soUrl "arm64-v8a" "23")) pushFails).
Proof.
  assert (slowCap ∉ files pushFails) as Hs by compute_done.
  assert (soPath ∉ files pushFails) as Hso by compute_done.
  exact (push_failure_stops newMinicapDaemon pushFails deviceProps
           "arm64-v8a" "23" hostDown Hs Hso eq_refl eq_refl eq_refl eq_refl).
Defined.

(** X5.  [pushFiles] is idempotent when its pushes succeed: run again on
    the device it has provisioned, it finds both files and does
    nothing. *)
Theorem pushFiles_idempotent (w : World) (p : gmap string string)
    (abi sdk : string) :
  props w = Some p ->
  p !! "ro.product.cpu.abi" = Some abi ->
  p !! "ro.build.version.sdk" = Some sdk ->
  push_result w (soUrl abi sdk) = None ->
  push_result w (exeUrl abi) = None ->
  fst (pushFiles w) = None /\
  pushFiles (snd (pushFiles w)) = (None, snd (pushFiles w)).
Proof.
  intros Hp Habi Hsdk Hso Hexe.
  rewrite (pushFiles_fast w p abi sdk) by assumption. cbn [fst snd].
  split; [reflexivity|].
  set (w1 := pushIfMissing soPath perm_0644 (soUrl abi sdk) w).
  set (w2 := pushIfMissing fastCap perm_0755 (exeUrl abi) w1).
  assert (forall d q u w0, props (pushIfMissing d q u w0) = props w0 /\
                           push_result (pushIfMissing d q u w0) = push_result w0)
    as Hsame.
  { intros. unfold pushIfMissing. now destruct (bool_decide _). }
  assert (props w2 = Some p) as Hp2.
  { unfold w2, w1. now rewrite !(proj1 (Hsame _ _ _ _)). }
  assert (push_result w2 = push_result w) as Hr2.
  { unfold w2, w1. now rewrite !(proj2 (Hsame _ _ _ _)). }
  rewrite (pushFiles_fast w2 p abi sdk) by (rewrite ?Hr2; assumption).
  assert (files w2 = {[soPath; fastCap]} ∪ files w) as Hf.
  { unfold w2, w1. rewrite !files_pushIfMissing. apply leibniz_equiv. set_solver. }
  f_equal. unfold pushIfMissing at 2.
  rewrite bool_decide_true by (rewrite Hf; set_solver).
  unfold pushIfMissing. rewrite bool_decide_true by (rewrite Hf; set_solver).
  reflexivity.
Qed.

Definition bareDevice : World :=
  mkWorld ∅ (Some deviceProps) [ProbeOk SupervisorFacts.info1080]
          (fun _ => None) (fun _ => (0, None)) (fun _ => 512%nat) [].

Lemma pushFiles_idempotent_witness :
  fst (pushFiles bareDevice) = None /\
  pushFiles (snd (pushFiles bareDevice)) = (None, snd (pushFiles bareDevice)).
Proof.
  exact (pushFiles_idempotent bareDevice deviceProps "arm64-v8a" "23"
           eq_refl eq_refl eq_refl eq_refl eq_refl).
Defined.

End PushFacts.

(** ** Supervisor: the session as its user drives it *)

Module SessionFacts.
Import Supervisor.
Import PrepareFacts.

(** What can happen to a supervisor: a call of its interface, or an event
    reaching its control loop. *)
Inductive call : Type :=
| CallStart
| CallStop
| CallSetQuality (quality : Z)
| CallSetRotation (r : Z) (sel : send_select)
| Happens (ev : loop_event).

Definition doCall (c : call) (m : minicapDaemon) : M minicapDaemon :=
  match c with
  | CallStart => let* (m, _) := Start m in ret m
  | CallStop => let* (m, _) := Stop m in ret m
  | CallSetQuality quality => let* (m, _) := callSetQuality quality m in ret m
  | CallSetRotation r sel => callSetRotation r sel m
  | Happens ev => handle ev m
  end.

Fixpoint doCalls (cs : list call) (m : minicapDaemon) : M minicapDaemon :=
  match cs with
  | [] => ret m
  | c :: cs' => let* m := doCall c m in doCalls cs' m
  end.

Lemma prepare_maxWidth m w :
  maxWidth (fst (fst (fst (prepare m w)))) = maxWidth m.
Proof.
  unfold prepare, bind, isRemoteExists, ret.
  destruct (bool_decide _).
  - cbn [binaryPath set_binaryPath].
    now destruct (runInfo slowCap w) as [[e|mi e|mi] w'].
  - destruct (pushFiles w) as [[e|] w1]; [reflexivity|].
    cbn [binaryPath set_binaryPath].
    now destruct (runInfo fastCap w1) as [[e|mi e|mi] w'].
Qed.

Lemma prepareSafeFrom_maxWidth n m w :
  maxWidth (fst (fst (fst (prepareSafeFrom n m w)))) = maxWidth m.
Proof.
  funelim (prepareSafeFrom n m w);
    match goal with H : prepare ?m ?w = _ |- _ =>
      pose proof (prepare_maxWidth m w) as Hp; rewrite H in Hp;
      cbn [fst] in Hp end; auto.
  congruence.
Qed.

Lemma loopStep_maxWidth ev st m w :
  maxWidth (fst (loopStep ev st m w)) = maxWidth m.
Proof.
  destruct ev as [out|r|]; cbn; [|reflexivity|reflexivity].
  now destruct (negb (needRestart st)).
Qed.

Lemma handle_maxWidth ev m w : maxWidth (fst (handle ev m w)) = maxWidth m.
Proof.
  unfold handle. destruct (loop m) as [st|]; [apply loopStep_maxWidth|].
  destruct (spawned m); [|reflexivity].
  unfold bind. destruct (runScreenCaptureWithRotate m w) as [m' w'] eqn:E.
  rewrite loopStep_maxWidth.
  apply (f_equal (fun r => maxWidth (fst r))) in E. symmetry. exact E.
Qed.

Lemma Start_maxWidth m w : maxWidth (fst (fst (Start m w))) = maxWidth m.
Proof.
  unfold Start, safeDo. destruct (inflight (mix m)); [reflexivity|].
  unfold bind, prepareSafe. destruct (killMinicap w) as [[] w0].
  match goal with |- context [prepareSafeFrom 0 ?m0 w0] =>
    pose proof (prepareSafeFrom_maxWidth 0 m0 w0) as H;
    destruct (prepareSafeFrom 0 m0 w0) as [[[m2 mi] [e|]] w2] end;
    cbn in *; exact H.
Qed.

Lemma Stop_maxWidth m w : maxWidth (fst (fst (Stop m w))) = maxWidth m.
Proof.
  unfold Stop, safeDo. destruct (inflight (mix m)); [reflexivity|].
  destruct (sendQuit _) as [k|]; [|reflexivity].
  unfold bind.
  match goal with |- context [handle EvQuitC ?m0 w] =>
    pose proof (handle_maxWidth EvQuitC m0 w) as H;
    destruct (handle EvQuitC m0 w) as [m' w'] end.
  cbn in *. now destruct (Wait (mix m')).
Qed.

Lemma doCall_maxWidth c m w : maxWidth (fst (doCall c m w)) = maxWidth m.
Proof.
  destruct c as [| |q|r sel|ev]; cbn [doCall]; unfold bind.
  - pose proof (Start_maxWidth m w). now destruct (Start m w) as [[m' o] w'].
  - pose proof (Stop_maxWidth m w). now destruct (Stop m w) as [[m' o] w'].
  - unfold callSetQuality.
    pose proof (SupervisorFacts.SetQuality_maxWidth m q) as H.
    destruct (SetQuality m q) as [m' [r|]]; cbn [fst] in H; [|exact H].
    pose proof (handle_maxWidth (EvRotationC r) m' w) as Hh.
    destruct (loop m'), (spawned m'); unfold bind, ret;
      try (destruct (handle _ m' w) as [m2 w2]; cbn [fst] in *; congruence);
      exact H.
  - unfold callSetRotation, SetRotation.
    destruct sel; [apply handle_maxWidth|reflexivity].
  - apply handle_maxWidth.
Qed.

(** X6.  Nothing a user can do to a supervisor changes its [maxWidth]:
    whatever the calls and events, in whatever order, the width bound
    stays what it was when the daemon was made. *)
Theorem maxWidth_never_changes (cs : list call) (m : minicapDaemon) (w : World) :
  maxWidth (fst (doCalls cs m w)) = maxWidth m.
Proof.
  revert m w. induction cs as [|c cs IH]; intros m w; [reflexivity|].
  cbn [doCalls]. unfold bind.
  pose proof (doCall_maxWidth c m w) as H.
  destruct (doCall c m w) as [m' w']. cbn [fst] in H. now rewrite IH.
Qed.

(** X7.  When the watched process ends and no restart was requested, the
    supervision is over: the loop stores the error of the watch, wrapped
    as "minicap", as terminal result; nothing is killed or relaunched; and
    whatever reaches the loop afterwards, rotations included, changes
    neither the daemon nor the device. *)
Theorem unrequested_exit_is_terminal (m : minicapDaemon) (st : loop_state)
    (w : World) (out : command_output) (evs : list loop_event) :
  loop m = Some st ->
  needRestart st = false ->
  exists e,
    watch out = Some e /\
    handleAll (EvErrC out :: evs) m w = (finish (Some e) m, w) /\
    terminal (mix (finish (Some e) m)) = Some (Some (ErrWrap e "minicap")).
Proof.
  intros Hl Hn.
  assert (exists e, watch out = Some e) as [e He].
  { destruct out as [e|[|l ls] e]; cbn; eauto.
    destruct (negb (Contains l "PID:")); cbn; eauto. }
  exists e. split; [exact He|]. split; [|reflexivity].
  cbn [handleAll]. unfold bind, handle at 1. rewrite Hl. cbn [loopStep].
  rewrite Hn, He. cbn [negb ret].
  induction evs as [|ev evs IH]; [reflexivity|].
  cbn [handleAll]. unfold bind. exact IH.
Qed.

Lemma unrequested_exit_is_terminal_witness :
  exists e,
    watch SupervisorFacts.processKilled = Some e /\
    handleAll [EvErrC SupervisorFacts.processKilled; EvRotationC 1]
              (fst SupervisorFacts.running) (snd SupervisorFacts.running)
    = (finish (Some e) (fst SupervisorFacts.running), snd SupervisorFacts.running) /\
    terminal (mix (finish (Some e) (fst SupervisorFacts.running)))
    = Some (Some (ErrWrap e "minicap")).
Proof.
  exact (unrequested_exit_is_terminal (fst SupervisorFacts.running)
           (mkLoop false None) (snd SupervisorFacts.running)
           SupervisorFacts.processKilled [EvRotationC 1] eq_refl eq_refl).
Defined.

(** The bounding box of each tier. *)
Definition tierBound (quality : Z) : Z :=
  nth (Z.to_nat (quality - 1)) [1080; 720; 480; 240] 0.

(** X8.  [SetQuality] with a value that is no tier does nothing at all: no
    field changes and nothing is sent to the control loop.  With a tier,
    on a running supervisor, it kills the process, and the relaunch that
    follows the end of the watch keeps the rotation and runs with the
    tier's bound as height bound. *)
Theorem SetQuality_restarts_with_same_rotation (m : minicapDaemon)
    (st : loop_state) (w : World) (quality : Z) (out : command_output) :
  loop m = Some st ->
  (quality < 1 \/ 4 < quality ->
   callSetQuality quality m w = (m, Returned None, w)) /\
  (1 <= quality <= 4 ->
   let (m', w') := (let* (m, _) := callSetQuality quality m in
                    handle (EvErrC out) m) w in
   log w' = log w ++ SupervisorFacts.kills
            ++ [ActLaunch (binaryPath m)
                  (launchParam (set_maxHeight (tierBound quality) m))] /\
   rotation m' = rotation m /\
   maxHeight m' = tierBound quality /\
   loop m' = Some (mkLoop false None)).
Proof.
  intros Hl. split.
  - intros Hq. unfold callSetQuality, SetQuality,
      QUALITY_1080P, QUALITY_720P, QUALITY_480P, QUALITY_240P.
    repeat match goal with |- context [?a =? ?b] =>
      destruct (Z.eqb_spec a b); [lia|] end.
    reflexivity.
  - intros Hq.
    assert (quality = 1 \/ quality = 2 \/ quality = 3 \/ quality = 4)
      as Hcase by lia.
    destruct Hcase as [Hc|[Hc|[Hc|Hc]]]; subst quality;
      unfold bind, callSetQuality, SetQuality,
        QUALITY_1080P, QUALITY_720P, QUALITY_480P, QUALITY_240P;
      cbn [Z.eqb Pos.eqb loop set_maxHeight]; rewrite Hl; unfold bind;
      rewrite (SupervisorFacts.handle_rotation _ st) by exact Hl;
      unfold ret; cbv beta iota;
      erewrite SupervisorFacts.handle_watch_done by reflexivity;
      cbn; rewrite <- !app_assoc; auto.
Qed.

Lemma SetQuality_restarts_with_same_rotation_witness :
  callSetQuality 7 (fst SupervisorFacts.running) (snd SupervisorFacts.running)
  = (fst SupervisorFacts.running, Returned None, snd SupervisorFacts.running) /\
  rotation (fst ((let* (m, _) := callSetQuality 3 (fst SupervisorFacts.running) in
                  handle (EvErrC SupervisorFacts.processKilled) m)
                   (snd SupervisorFacts.running)))
  = rotation (fst SupervisorFacts.running).
Proof.
  destruct (SetQuality_restarts_with_same_rotation
              (fst SupervisorFacts.running) (mkLoop false None)
              (snd SupervisorFacts.running) 7 SupervisorFacts.processKilled
              eq_refl) as [H7 _].
  destruct (SetQuality_restarts_with_same_rotation
              (fst SupervisorFacts.running) (mkLoop false None)
              (snd SupervisorFacts.running) 3 SupervisorFacts.processKilled
              eq_refl) as [_ H3].
  split.
  - rewrite H7 by lia. reflexivity.
  - specialize (H3 ltac:(lia)).
    destruct ((let* (m, _) := callSetQuality 3 (fst SupervisorFacts.running) in
               handle (EvErrC SupervisorFacts.processKilled) m)
                (snd SupervisorFacts.running)) as [m' w'].
    exact (proj1 (proj2 H3)).
Defined.

End SessionFacts.

(** ** Supervisor: what the watch accepts *)

Module WatchFacts.
Import Supervisor.

Lemma prefix_append (sub s : string) :
  String.prefix sub s = true <-> exists post, s = sub +:+ post.
Proof.
  revert s. induction sub as [|c sub IH]; intros s; cbn.
  - split; [intros _; now exists s|intros _; now destruct s].
  - destruct s as [|d s]; cbn.
    + split; [discriminate|intros [post H]; discriminate].
    + destruct (Ascii.ascii_dec c d) as [->|Hne].
      * rewrite IH. split; intros [post H]; exists post.
        -- now rewrite H.
        -- now injection H.
      * split; [discriminate|]. intros [post H]. injection H as H _.
        now elim Hne.
Qed.

(** [Contains] finds [substr] at some position of [s]. *)
Lemma Contains_occurs (s substr : string) :
  Contains s substr = true <-> exists pre post, s = pre +:+ substr +:+ post.
Proof.
  induction s as [|c s IH]; cbn [Contains]; rewrite orb_true_iff, prefix_append.
  - split.
    + intros [[post H]|H]; [|discriminate]. now exists "", post.
    + intros (pre & post & H). left.
      destruct pre; [now exists post|discriminate].
  - rewrite IH. split.
    + intros [[post H]|(pre & post & H)].
      * now exists "", post.
      * exists (String c pre), post. cbn. now rewrite H.
    + intros (pre & post & H). destruct pre as [|d pre].
      * left. now exists post.
      * right. cbn in H. injection H as _ H. now exists pre, post.
Qed.

(** X9.  The watch of a control stream that has a first line ends in the
    error "minicap quit", that is, without a protocol violation, exactly
    when "PID:" occurs somewhere in that first line; where in the line,
    and what follows it, does not matter. *)
Theorem watch_accepts_PID_anywhere (first : string) (rest : list string)
    (readErr : error) :
  watch (Stream (first :: rest) readErr) = Some (ErrNew "minicap quit") <->
  exists pre post, first = pre +:+ "PID:" +:+ post.
Proof.
  rewrite <- Contains_occurs, SupervisorFacts.watch_first_line.
  destruct (Contains first "PID:"); split; try reflexivity; discriminate.
Qed.

End WatchFacts.

(** ** Reader: the binary reader and the wire format *)

Module WireFacts.
Import Reader.
Import ReaderFacts.

Lemma readEach_in_order (widths : list nat) :
  forall c,
    let (vs, r) := readEach widths (mkBinRd c None) in
    ((sum_list widths <= length (incoming c))%nat ->
     r = mkBinRd (mkConn (drop (sum_list widths) (incoming c)) (readErr c)) None /\
     map length vs = widths /\
     concat vs = take (sum_list widths) (incoming c)) /\
    ((length (incoming c) < sum_list widths)%nat ->
     exists e,
       err r = Some e /\
       (e = readErr c \/ (readErr c = ErrEOF /\ e = ErrUnexpectedEOF))).
Proof.
  induction widths as [|n widths IH]; intros c.
  - cbn. split; [|lia]. intros _. now destruct c.
  - change (sum_list (n :: widths)) with (n + sum_list widths)%nat.
    cbn [readEach rd]. unfold readFull.
    destruct (n <=? length (incoming c))%nat eqn:E.
    + apply Nat.leb_le in E.
      specialize (IH (mkConn (drop n (incoming c)) (readErr c))).
      destruct (readEach widths _) as [vs r'].
      cbn [incoming readErr] in IH. rewrite length_drop in IH.
      destruct IH as [IHok IHshort]. split.
      * intros Hs. destruct (IHok ltac:(lia)) as (-> & H2 & H3).
        rewrite drop_drop. split; [reflexivity|]. split.
        -- cbn. rewrite length_take, H2. f_equal. lia.
        -- cbn. rewrite H3. apply take_take_drop.
      * intros Hs. apply IHshort. lia.
    + apply Nat.leb_gt in E. cbn [err]. split; [lia|]. intros _.
      eexists. split; [reflexivity|].
      destruct (incoming c), (readErr c); auto.
Qed.

(** X10.  [ReadInto] on a reader without error.  When the connection has
    the bytes, it returns values of exactly the widths asked for, which
    put end to end are the bytes that were next on the connection, and
    leaves the rest unread.  When it has not, the reader ends up with an
    error (the read error of the connection, or "unexpected EOF" for an
    end of file inside a value), and from then on every [ReadInto]
    returns at once, reading nothing. *)
Theorem ReadInto_in_order (widths : list nat) (c : Conn) :
  ((sum_list widths <= length (incoming c))%nat ->
   snd (ReadInto widths (mkBinRd c None))
   = mkBinRd (mkConn (drop (sum_list widths) (incoming c)) (readErr c)) None /\
   map length (fst (ReadInto widths (mkBinRd c None))) = widths /\
   concat (fst (ReadInto widths (mkBinRd c None)))
   = take (sum_list widths) (incoming c)) /\
  ((length (incoming c) < sum_list widths)%nat ->
   exists e,
     err (snd (ReadInto widths (mkBinRd c None))) = Some e /\
     (e = readErr c \/ (readErr c = ErrEOF /\ e = ErrUnexpectedEOF)) /\
     forall widths',
       ReadInto widths' (snd (ReadInto widths (mkBinRd c None)))
       = ([], snd (ReadInto widths (mkBinRd c None)))).
Proof.
  change (ReadInto widths (mkBinRd c None))
    with (readEach widths (mkBinRd c None)).
  pose proof (readEach_in_order widths c) as H.
  destruct (readEach widths (mkBinRd c None)) as [vs r]. cbn [fst snd].
  destruct H as [Hok Hshort]. split; [exact Hok|].
  intros Hs. destruct (Hshort Hs) as (e & He & Hkind).
  exists e. split; [exact He|]. split; [exact Hkind|].
  intros widths'. unfold ReadInto. now rewrite He.
Qed.

Lemma ReadInto_in_order_witness :
  concat (fst (ReadInto [1; 2]%nat (mkBinRd (mkConn [x01; x02; x03; x04] ErrEOF) None)))
  = [x01; x02; x03] /\
  (exists e,
      err (snd (ReadInto [4; 4]%nat
                  (mkBinRd (mkConn [x01; x02; x03; x04; x05] ErrEOF) None)))
      = Some e).
Proof.
  split.
  - exact (proj2 (proj2 (proj1 (ReadInto_in_order [1; 2]%nat
                                   (mkConn [x01; x02; x03; x04] ErrEOF))
                            ltac:(cbn; lia)))).
  - destruct (proj2 (ReadInto_in_order [4; 4]%nat
                       (mkConn [x01; x02; x03; x04; x05] ErrEOF))
                ltac:(cbn; lia)) as (e & He & _).
    now exists e.
Defined.

(** X11.  [readFromTcp] never panics: whatever the dial gives and
    whatever the peer sends, it ends by returning an error.  (The one
    slice expression of its loop is in bounds because the copy into the
    buffer leaves [bytes.MinRead] free cells behind the payload.) *)
Theorem readFromTcp_returns_error (spareCap : nat -> nat) (d : dial_result)
    (drains : list nat) (s : jpgTcpSucker) :
  exists e, snd (readDialed spareCap d drains s) = EndErr e.
Proof.
  pose proof (readDialed_no_panic spareCap d drains s) as H.
  destruct (snd (readDialed spareCap d drains s)) as [e|]; [now exists e|].
  now elim H.
Qed.



(** *** What a conforming producer sends *)

(** The low byte of a number. *)
Definition lowByte (n : N) : byte :=
  match Byte.of_N (n mod 256) with
  | Some b => b
  | None => x00
  end.

(** A length as minicap writes it: four bytes, least significant first. *)
Definition le32 (n : N) : list byte :=
  [lowByte n; lowByte (n / 256); lowByte (n / 65536); lowByte (n / 16777216)].

(** Frames on the wire: each is its length, then its bytes. *)
Definition wire (frames : list (list byte)) : list byte :=
  flat_map (fun f => le32 (N.of_nat (length f)) ++ f) frames.

Lemma to_N_lowByte (n : N) : Byte.to_N (lowByte n) = (n mod 256)%N.
Proof.
  unfold lowByte. destruct (Byte.of_N (n mod 256)) as [b|] eqn:E.
  - now apply Byte.to_of_N.
  - apply Byte.of_N_None_iff in E.
    pose proof (N.mod_upper_bound n 256 ltac:(lia)). lia.
Qed.

(** [littleEndian] reads back the length that [le32] wrote. *)
Lemma littleEndian_le32 (n : N) :
  (n < 2 ^ 32)%N -> littleEndian (le32 n) = n.
Proof.
  intros Hn. unfold littleEndian, le32. cbn [fold_right].
  rewrite !to_N_lowByte.
  change (2 ^ 32)%N with 4294967296%N in Hn.
  pose proof (N.div_mod n 256 ltac:(lia)) as H0.
  pose proof (N.div_mod (n / 256) 256 ltac:(lia)) as H1.
  pose proof (N.div_mod (n / 256 / 256) 256 ltac:(lia)) as H2.
  pose proof (N.div_mod (n / 256 / 256 / 256) 256 ltac:(lia)) as H3.
  replace (n / 65536)%N with (n / 256 / 256)%N
    by (rewrite N.Div0.div_div; reflexivity).
  replace (n / 16777216)%N with (n / 256 / 256 / 256)%N
    by (rewrite !N.Div0.div_div; reflexivity).
  assert (n / 256 / 256 / 256 / 256 = 0)%N as Hz.
  { rewrite !N.Div0.div_div. apply N.div_small. cbn. lia. }
  assert ((n / 256 / 256 / 256) mod 256 = n / 256 / 256 / 256)%N as H4 by lia.
  lia.
Qed.

(** A frame a conforming producer may send: it begins with the marker and
    its length fits the length field. *)
Definition wellFormed (frame : list byte) : Prop :=
  startsWithMarker frame /\ (N.of_nat (length frame) < 2 ^ 32)%N.

Lemma frameLoop_wire (spareCap : nat -> nat) (frames : list (list byte)) :
  forall q e,
    Forall wellFormed frames ->
    (length q <= 3)%nat ->
    frameLoop spareCap [] q (mkBinRd (mkConn (wire frames) e) None)
    = (take 3 (q ++ frames), EndErr e).
Proof.
  induction frames as [|f frames IH]; intros q e Hwf Hq; rewrite frameLoop_step.
  - cbn. rewrite app_nil_r, take_ge by lia. now destruct e.
  - inversion Hwf as [|? ? [Hm Hlen] Hwf']; subst.
    change (wire (f :: frames))
      with ((le32 (N.of_nat (length f)) ++ f) ++ wire frames).
    rewrite <- app_assoc.
    rewrite nextFrame_on_frame;
      [|reflexivity|rewrite littleEndian_le32 by exact Hlen; lia].
    assert (2 <= length f)%nat as H2.
    { unfold startsWithMarker in Hm.
      destruct f as [|a [|b f]]; [discriminate|discriminate|cbn; lia]. }
    unfold sliceTo, Bytes. cbn [elems spare].
    replace (2 <=? _)%nat with true by (symmetry; apply Nat.leb_le; lia).
    rewrite take_app_le by lia. rewrite Hm.
    change (isJpegMarker [xff; xd8]) with true. cbn [negb].
    change (tl (@nil nat)) with (@nil nat).
    change (drop (hd 0%nat []) q) with q.
    rewrite IH by (auto using trySend_length).
    f_equal. unfold trySend, queueCap.
    destruct (length q <? 3)%nat eqn:E.
    + now rewrite <- app_assoc.
    + apply Nat.ltb_ge in E. now rewrite !take_app_le by lia.
Qed.

(** X13.  A connection that carries a 24-byte preamble and then
    well-formed frames, each as its little-endian length followed by its
    bytes, makes [readFromTcp] deliver the frames in the order sent for as
    long as the queue has room: with nobody draining, the queue ends up
    holding, oldest first, what it held before followed by the frames
    sent, cut after 3; the rest are dropped.  The read then ends with the
    error that closed the connection. *)
Theorem wellformed_stream_delivered_in_order (spareCap : nat -> nat)
    (pre : list byte) (frames : list (list byte)) (e : error)
    (s : jpgTcpSucker) :
  length pre = 24%nat ->
  Forall wellFormed frames ->
  (length (C s) <= 3)%nat ->
  readDialed spareCap (Dialed (mkConn (pre ++ wire frames) e)) [] s
  = (set_C (take 3 (C s ++ frames)) (set_conn true s), EndErr e).
Proof.
  intros Hpre Hwf Hq. unfold readDialed.
  destruct (proj1 (ReadInto_in_order preamble (mkConn (pre ++ wire frames) e)))
    as (Hr & _ & _).
  { cbn [incoming]. rewrite length_app, Hpre. cbn. lia. }
  destruct (ReadInto preamble _) as [vs r]. cbn [snd] in Hr. subst r.
  cbn [err incoming readErr].
  change (sum_list preamble) with 24%nat.
  rewrite drop_app_length' by (symmetry; exact Hpre).
  now rewrite frameLoop_wire.
Qed.

Definition zeroPreamble : list byte := replicate 24 x00.

Definition frameA : list byte := [xff; xd8; x01].
Definition frameB : list byte := [xff; xd8; x02; x03].

Lemma wellformed_stream_delivered_in_order_witness :
  readDialed (fun _ => 512%nat)
             (Dialed (mkConn (zeroPreamble ++ wire [frameA; frameB]) ErrEOF))
             [] newSucker
  = (set_C (take 3 (C newSucker ++ [frameA; frameB])) (set_conn true newSucker),
     EndErr ErrEOF).
Proof.
  apply (wellformed_stream_delivered_in_order (fun _ => 512%nat) zeroPreamble
           [frameA; frameB] ErrEOF newSucker).
  - reflexivity.
  - repeat constructor; cbn; lia.
  - cbn. lia.
Defined.

End WireFacts.

(** ** Reader: the retry budget over successful connections *)

Module RetryFacts.
Import Reader.
Import ReaderFacts.
Import WireFacts.

(** One attempt as the task sees it, however it went: the read task
    returns, then the 500 ms timer fires. *)
Definition attempt (x : dial_result * list nat) : list loop_event :=
  [EvReadDone (fst x) (snd x); EvTimer].

Definition attempts (rounds : list (dial_result * list nat)) : list loop_event :=
  flat_map attempt rounds.

Lemma readDialed_port spareCap d drains s :
  port (fst (readDialed spareCap d drains s)) = port s.
Proof.
  unfold readDialed. destruct d as [e|c]; [reflexivity|].
  destruct (ReadInto preamble _) as [vs r]. destruct (err r); [reflexivity|].
  now destruct (frameLoop _ _ _ _).
Qed.

Lemma attempts_exhaust (rounds : list (dial_result * list nat)) :
  forall s w le x,
    loop s = Some (mkLoop (Z.of_nat (length rounds)) WaitRead le) ->
    let (s1, w1) := handleAll (attempts (x :: rounds)) s w in
    loop s1 = None /\
    terminal (mix s1) = Some (Some (ErrWrap maxRetryError "readFromTcp")) /\
    port s1 = port s /\
    w1 = doAll (ActTimer 500 :: flat_map (fun _ => attemptLog (port s)) rounds) w.
Proof.
  induction rounds as [|y rounds IH]; intros s w le [d dr] Hl;
    change (attempts ((d, dr) :: ?l))
      with (EvReadDone d dr :: EvTimer :: attempts l);
    cbn [handleAll]; unfold bind; unfold handle at 1; rewrite Hl;
    cbn [loopStep waiting];
    destruct (readFromTcp_ends (bufSpare w) d dr s) as [e He];
    pose proof (readDialed_port (bufSpare w) d dr s) as Hport;
    destruct (readDialed (bufSpare w) d dr s) as [s' re];
    cbn [fst snd] in He, Hport; subst re;
    unfold handle at 1; cbn [loop set_loop loopStep waiting leftRetry lastErr].
  - cbn [length]. change (Z.of_nat 0) with 0. cbn. repeat split; auto.
  - replace (Z.of_nat (length (y :: rounds)) <=? 0) with false
      by (symmetry; apply Z.leb_gt; cbn [length]; lia).
    unfold bind, dial, act, ret.
    replace (Z.of_nat (length (y :: rounds)) - 1) with (Z.of_nat (length rounds))
      by (cbn [length]; lia).
    match goal with |- context [handleAll (attempts (y :: rounds)) ?s3 ?w3] =>
      specialize (IH s3 w3 (Some e) y eq_refl);
      destruct (handleAll (attempts (y :: rounds)) s3 w3) as [s1 w1] end.
    destruct IH as (H1 & H2 & H3 & H4). cbn [port set_loop] in *.
    rewrite Hport in *. subst w1. auto.
Qed.

(** X14.  The retry budget is never replenished.  Whether the dials
    succeed or fail, and whatever the connections carry, the eleventh
    return of the read task is the last: the task then ends with the
    error "jpgTcpSucker reach max retry(10)", having dialled 11 times in
    all. *)
Theorem retry_budget_never_replenished (s : jpgTcpSucker) (w : World)
    (rounds : list (dial_result * list nat)) :
  length rounds = 11%nat ->
  let (s0, w0) := keepReadFromTcp s w in
  let (s1, w1) := handleAll (attempts rounds) s0 w0 in
  loop s1 = None /\
  terminal (mix s1) = Some (Some (ErrWrap maxRetryError "readFromTcp")) /\
  log w1 = log w ++ flat_map (fun _ => attemptLog (port s)) rounds /\
  dials (log w1) = (dials (log w) + 11)%nat.
Proof.
  intros Hlen. unfold keepReadFromTcp, bind, dial, act, ret.
  destruct rounds as [|x rounds]; [discriminate|]. injection Hlen as Hlen.
  pose proof (attempts_exhaust rounds
                (set_loop (Some (mkLoop 10 WaitRead None)) s)
                (do (ActDial (port s)) w) None x) as H.
  rewrite Hlen in H. specialize (H eq_refl).
  destruct (handleAll _ _ _) as [s1 w1].
  destruct H as (H1 & H2 & _ & ->). cbn [port set_loop].
  assert (log (doAll (ActTimer 500 :: flat_map (fun _ => attemptLog (port s)) rounds)
                 (do (ActDial (port s)) w))
          = log w ++ flat_map (fun _ => attemptLog (port s)) (x :: rounds)) as Hlog.
  { rewrite log_doAll. cbn. now rewrite <- app_assoc. }
  repeat split; auto.
  rewrite Hlog, dials_app, dials_attempts. cbn [length]. lia.
Qed.

Lemma retry_budget_never_replenished_witness :
  let (s0, w0) := keepReadFromTcp newSucker SupervisorFacts.emptyWorld in
  let (s1, w1) :=
    handleAll (attempts (replicate 11 (Dialed fourFrames, []))) s0 w0 in
  loop s1 = None /\
  terminal (mix s1) = Some (Some (ErrWrap maxRetryError "readFromTcp")) /\
  log w1 = log SupervisorFacts.emptyWorld
           ++ flat_map (fun _ => attemptLog (port newSucker))
                       (replicate 11 (Dialed fourFrames, @nil nat)) /\
  dials (log w1) = (dials (log SupervisorFacts.emptyWorld) + 11)%nat.
Proof.
  apply (retry_budget_never_replenished newSucker SupervisorFacts.emptyWorld
           (replicate 11 (Dialed fourFrames, []))).
  reflexivity.
Defined.

End RetryFacts.

(** ** Lifecycle: start, stop and what is left running *)

Module LifecycleFacts.
Import Supervisor.

(** [prepare] touches no field of the daemon but [binaryPath]. *)
Lemma prepare_sets_path m w :
  exists p, fst (fst (fst (prepare m w))) = set_binaryPath p m.
Proof.
  unfold prepare, bind, isRemoteExists, ret.
  destruct (bool_decide _).
  - exists slowCap. cbn [binaryPath set_binaryPath].
    now destruct (runInfo slowCap w) as [[e|mi e|mi] w'].
  - exists fastCap. destruct (pushFiles w) as [[e|] w1]; [reflexivity|].
    cbn [binaryPath set_binaryPath].
    now destruct (runInfo fastCap w1) as [[e|mi e|mi] w'].
Qed.

Lemma prepareSafeFrom_sets_path n m w :
  exists p, fst (fst (fst (prepareSafeFrom n m w))) = set_binaryPath p m.
Proof.
  funelim (prepareSafeFrom n m w);
    match goal with H : prepare ?m ?w = _ |- _ =>
      destruct (prepare_sets_path m w) as [p Hp]; rewrite H in Hp;
      cbn [fst] in Hp end; eauto.
  match goal with IH : exists _, _ |- _ => destruct IH as [p' ->] end.
  subst. now exists p'.
Qed.

(** What a successful [Start] of the supervisor leaves: no call in
    flight, no terminal result yet, an empty stop channel, and the task
    created and still to run. *)
Lemma Start_success_state m w m1 w1 :
  Start m w = (m1, Returned None, w1) ->
  mix m1 = mkMixins false None /\
  quitC m1 = Some 0%nat /\ spawned m1 = true /\ loop m1 = None.
Proof.
  unfold Start, safeDo. destruct (inflight (mix m)); [discriminate|].
  unfold bind, prepareSafe. destruct (killMinicap w) as [[] w0].
  match goal with |- context [prepareSafeFrom 0 ?m0 w0] =>
    destruct (prepareSafeFrom_sets_path 0 m0 w0) as [p Hp];
    destruct (prepareSafeFrom 0 m0 w0) as [[[m2 mi] [e|]] w2] end;
    cbn [fst] in Hp; subst m2; cbn; [discriminate|].
  intros [= <- _]. cbn. auto.
Qed.

(** When the task that [Start] created runs, it kills stray instances and
    launches the process. *)
Definition firstRun (m : minicapDaemon) : list action :=
  SupervisorFacts.kills ++ [ActLaunch (binaryPath m) (launchParam m)].

(** X15.  A [Stop] that follows a successful [Start] of the supervisor
    returns nil.  Once the task that [Start] created has run, the control
    loop takes the stop, kills the process and ends without error,
    relaunching nothing; the stop channel is empty again.  A [Stop] that
    comes before the task has run waits for it all the same: the task
    runs, finds the stop at its [select], and the outcome is the same. *)
Theorem Stop_after_Start (m : minicapDaemon) (w : World)
    (m1 : minicapDaemon) (w1 : World) :
  Start m w = (m1, Returned None, w1) ->
  let (m2, w2) := runScreenCaptureWithRotate m1 w1 in
  w2 = doAll (firstRun m1) w1 /\
  snd (fst (Stop m2 w2)) = Returned None /\
  snd (Stop m2 w2) = doAll SupervisorFacts.kills w2 /\
  loop (fst (fst (Stop m2 w2))) = None /\
  spawned (fst (fst (Stop m2 w2))) = false /\
  quitC (fst (fst (Stop m2 w2))) = Some 0%nat /\
  mix (fst (fst (Stop m2 w2))) = mkMixins false (Some None) /\
  Stop m1 w1 = Stop m2 w2.
Proof.
  intros H.
  destruct (Start_success_state m w m1 w1 H) as (Hm & Hq & Hs & Hl).
  unfold runScreenCaptureWithRotate, killMinicap, killProc, launch, act, ret,
    bind. cbv beta iota.
  split; [reflexivity|].
  unfold Stop, safeDo. cbn [mix set_loop inflight set_mix quitC].
  rewrite Hm, Hq. cbn [inflight terminal sendQuit Nat.ltb Nat.leb].
  unfold bind, handle.
  cbn [loop spawned set_quitC set_mix set_loop]. rewrite Hl, Hs.
  cbn. auto 10.
Qed.

Lemma Stop_after_Start_witness :
  let m1 := fst (fst (Start newMinicapDaemon ProvisionFacts.fastExeOnly)) in
  let w1 := snd (Start newMinicapDaemon ProvisionFacts.fastExeOnly) in
  let (m2, w2) := runScreenCaptureWithRotate m1 w1 in
  w2 = doAll (firstRun m1) w1 /\
  snd (fst (Stop m2 w2)) = Returned None /\
  snd (Stop m2 w2) = doAll SupervisorFacts.kills w2 /\
  loop (fst (fst (Stop m2 w2))) = None /\
  spawned (fst (fst (Stop m2 w2))) = false /\
  quitC (fst (fst (Stop m2 w2))) = Some 0%nat /\
  mix (fst (fst (Stop m2 w2))) = mkMixins false (Some None) /\
  Stop m1 w1 = Stop m2 w2.
Proof.
  assert (snd (fst (Start newMinicapDaemon ProvisionFacts.fastExeOnly))
          = Returned None) as H by (vm_compute; reflexivity).
  pose proof (Stop_after_Start newMinicapDaemon ProvisionFacts.fastExeOnly _ _
                (CoordinatorFacts.returned_eta _ _ H)) as H1.
  exact H1.
Defined.

(** X16.  A [Stop] that comes after the process has ended on its own
    returns the terminal error of the supervision, the error of the watch
    wrapped as "minicap".  It kills nothing, the control loop being gone,
    and its stop value stays in the channel. *)
Theorem Stop_after_exit (m : minicapDaemon) (w : World)
    (m1 : minicapDaemon) (w1 : World) (out : command_output) :
  Start m w = (m1, Returned None, w1) ->
  let (m2, w2) := handle (EvErrC out) m1 w1 in
  exists e,
    watch out = Some e /\
    w2 = doAll (firstRun m1) w1 /\
    snd (fst (Stop m2 w2)) = Returned (Some (ErrWrap e "minicap")) /\
    snd (Stop m2 w2) = w2 /\
    quitC (fst (fst (Stop m2 w2))) = Some 1%nat.
Proof.
  intros H.
  destruct (Start_success_state m w m1 w1 H) as (Hm & Hq & Hs & Hl).
  unfold handle. rewrite Hl, Hs.
  unfold runScreenCaptureWithRotate, killMinicap, killProc, launch, act, ret,
    bind. cbv beta iota. cbn [loopStep needRestart negb].
  assert (exists e, watch out = Some e) as [e He].
  { destruct out as [e|[|l ls] e]; cbn; eauto.
    destruct (negb (Contains l "PID:")); cbn; eauto. }
  exists e. split; [exact He|]. split; [reflexivity|]. rewrite He.
  unfold Stop, safeDo, finish, ret.
  cbn [mix set_loop set_mix inflight doneError quitC].
  rewrite Hm, Hq. cbn. auto.
Qed.

Lemma Stop_after_exit_witness :
  let m1 := fst (fst (Start newMinicapDaemon ProvisionFacts.fastExeOnly)) in
  let w1 := snd (Start newMinicapDaemon ProvisionFacts.fastExeOnly) in
  let (m2, w2) := handle (EvErrC SupervisorFacts.processKilled) m1 w1 in
  exists e,
    watch SupervisorFacts.processKilled = Some e /\
    w2 = doAll (firstRun m1) w1 /\
    snd (fst (Stop m2 w2)) = Returned (Some (ErrWrap e "minicap")) /\
    snd (Stop m2 w2) = w2 /\
    quitC (fst (fst (Stop m2 w2))) = Some 1%nat.
Proof.
  assert (snd (fst (Start newMinicapDaemon ProvisionFacts.fastExeOnly))
          = Returned None) as H by (vm_compute; reflexivity).
  pose proof (Stop_after_exit newMinicapDaemon ProvisionFacts.fastExeOnly _ _
                SupervisorFacts.processKilled
                (CoordinatorFacts.returned_eta _ _ H)) as H1.
  exact H1.
Defined.

End LifecycleFacts.

(** ** Coordinator: a reader that cannot start *)

Module CoordinatorExtras.
Import Coordinator.
Import CoordinatorFacts.

(** X17.  When the supervisor has started and the forwarding of the
    reader fails, [Start] returns the forwarding error and stops there:
    the failed forwarding is all it does after the supervisor's start, no
    reader task is created, and the supervisor is not stopped: no stop is
    sent to it, and the task its start created is left to run.  The reader
    keeps the port number [ForwardToFreePort] returned. *)
Theorem Start_reader_failure_keeps_supervisor (s : STFCapturer) (w : World)
    (d : Supervisor.minicapDaemon) (w1 : World) (port : Z) (e : error) :
  Supervisor.Start (daemon s) w = (d, Returned None, w1) ->
  inflight (Reader.mix (sucker s)) = false ->
  forward_result w1 (transport w) = (port, Some e) ->
  snd (fst (Start s w)) = Returned (Some e) /\
  snd (Start s w) = do (ActForward (transport w)) w1 /\
  daemon (fst (fst (Start s w))) = d /\
  Supervisor.spawned d = true /\
  Supervisor.quitC d = Some 0%nat /\
  Reader.spawned (sucker (fst (fst (Start s w)))) = Reader.spawned (sucker s) /\
  Reader.loop (sucker (fst (fst (Start s w)))) = Reader.loop (sucker s) /\
  Reader.port (sucker (fst (fst (Start s w)))) = port.
Proof.
  intros H1 Hi Hf.
  pose proof (Start_selects _ _ _ _ H1) as Hsel.
  destruct (LifecycleFacts.Start_success_state _ _ _ _ H1)
    as (_ & Hq & Hs & _).
  assert ((if String.eqb (Supervisor.binaryPath d) "/data/local/tmp/slow-minicap"
           then mkForwardSpec FProtocolTcp "2016"
           else mkForwardSpec FProtocolAbstract "minicap") = transport w) as Hspec.
  { rewrite Hsel. unfold selected, transport. now destruct (bool_decide _). }
  unfold Start, bind. rewrite H1, Hspec.
  unfold Reader.Start, safeDo.
  cbn [Reader.mix Reader.set_forwardSpec]. rewrite Hi.
  unfold bind, Reader.prepareForward.
  cbn [Reader.forwardSpec Reader.set_quitC Reader.set_C Reader.set_mix
       Reader.set_forwardSpec].
  rewrite Hf. cbn. auto 10.
Qed.

(** A device on which no forwarding can be set up. *)
Definition noForward : World :=
  mkWorld {[Supervisor.fastCap]} (Some ProvisionFacts.deviceProps)
          [ProbeOk SupervisorFacts.info1080]
          (fun _ => None)
          (fun _ => (0, Some (ErrExternal "cannot bind")))
          (fun _ => 512%nat) [].

Lemma Start_reader_failure_keeps_supervisor_witness :
  snd (fst (Start NewSTFCapturer noForward))
  = Returned (Some (ErrExternal "cannot bind")) /\
  snd (Start NewSTFCapturer noForward)
  = do (ActForward (transport noForward))
       (snd (Supervisor.Start (daemon NewSTFCapturer) noForward)) /\
  Supervisor.spawned
    (fst (fst (Supervisor.Start (daemon NewSTFCapturer) noForward))) = true.
Proof.
  assert (snd (fst (Supervisor.Start (daemon NewSTFCapturer) noForward))
          = Returned None) as H by (vm_compute; reflexivity).
  pose proof (Start_reader_failure_keeps_supervisor NewSTFCapturer noForward
                _ _ 0 (ErrExternal "cannot bind")
                (returned_eta _ _ H) eq_refl eq_refl) as (H1 & H2 & _ & H4 & _).
  split; [exact H1|split; [exact H2|exact H4]].
Defined.

End CoordinatorExtras.

(** ** Killing by name: the process listing *)

(** [killProc] in full.  The claims need only that it was called (the
    supervisor's log records that); here is what it does with the listing
    that [ps] prints.  The listing is taken as ASCII text: on it the
    [strings] functions used see the six ASCII white-space characters and
    no other. *)
Module ProcessTable.
Import Supervisor.

Definition newline : ascii := "010"%char.

(** The white space of [strings.TrimSpace] and [strings.Fields] on ASCII:
    tab, line feed, vertical tab, form feed, carriage return, space. *)
Definition isSpace (c : ascii) : bool :=
  let n := nat_of_ascii c in
  ((9 <=? n) && (n <=? 13) || (n =? 32))%nat.

Definition isASCII (s : string) : bool :=
  forallb (fun c => (nat_of_ascii c <? 128)%nat) (list_ascii_of_string s).

Fixpoint trimLeft (s : string) : string :=
  match s with
  | EmptyString => EmptyString
  | String c s' => if isSpace c then trimLeft s' else s
  end.

Fixpoint trimRight (s : string) : string :=
  match s with
  | EmptyString => EmptyString
  | String c s' =>
      match trimRight s' with
      | EmptyString => if isSpace c then EmptyString else String c EmptyString
      | t => String c t
      end
  end.

(** [strings.TrimSpace]. *)
Definition TrimSpace (s : string) : string := trimRight (trimLeft s).

(** [strings.Split(s, sep)] for a separator of one character. *)
Fixpoint Split (s : string) (sep : ascii) : list string :=
  match s with
  | EmptyString => [EmptyString]
  | String c s' =>
      if Ascii.eqb c sep then EmptyString :: Split s' sep
      else match Split s' sep with
           | [] => [String c EmptyString]
           | x :: xs => String c x :: xs
           end
  end.

(** [strings.Fields]: the maximal runs of characters that are not white
    space. *)
Fixpoint Fields (s : string) : list string :=
  match s with
  | EmptyString => []
  | String c s' =>
      let rest := Fields s' in
      if isSpace c then rest
      else
        match s' with
        | EmptyString => [String c EmptyString]
        | String d _ =>
            if isSpace d then String c EmptyString :: rest
            else match rest with
                 | f :: fs => String c f :: fs
                 | [] => [String c EmptyString]
                 end
        end
  end.

(** The [for idx, val := range strings.Fields(lines[0])] loop: the index
    of the first field that is "PID", and 0, the zero value of [pidIndex],
    when there is none. *)
Fixpoint findPID (fields : list string) (idx : nat) : nat :=
  match fields with
  | [] => 0%nat
  | val :: rest => if String.eqb val "PID" then idx else findPID rest (S idx)
  end.

(** How [killProc] ends: it returns, or the index expression
    [fields[pidIndex]] panics. *)
Inductive kill_end : Type :=
| KillReturned (err : option error)
| KillPanic.

(** The [for _, line := range lines[1:]] loop: the [kill] commands run, in
    order, and how the loop ends. *)
Fixpoint killRows (psName sigArg : string) (pidIndex : nat)
    (rows : list string) : list (list string) * kill_end :=
  match rows with
  | [] => ([], KillReturned None)
  | line :: rows' =>
      let fields := Fields line in
      if negb (Contains line psName) then killRows psName sigArg pidIndex rows'
      else
        match fields !! pidIndex with
        | None => ([], KillPanic)
        | Some pid =>
            let (cmds, e) := killRows psName sigArg pidIndex rows' in
            (["kill"; sigArg; pid] :: cmds, e)
        end
  end.

(** [killProc], given what [RunCommand("ps", "-C", psName)] returns. *)
Definition killProc (psName : string) (sig : Z) (ps : string + error)
  : list (list string) * kill_end :=
  match ps with
  | inr e => ([], KillReturned (Some e))
  | inl out =>
      let lines := Split (TrimSpace out) newline in
      if (length lines <=? 1)%nat then
        ([], KillReturned
               (Some (ErrNew ("No process named " +:+ psName +:+ " founded."))))
      else
        let pidIndex := findPID (Fields (hd EmptyString lines)) 0 in
        killRows psName ("-" +:+ fmt_d sig) pidIndex (tl lines)
  end.

Definition SIGKILL : Z := 9.

(** *** Lines and white space *)

Definition noNewline (s : string) : bool :=
  forallb (fun c => negb (Ascii.eqb c newline)) (list_ascii_of_string s).

Definition allSpace (s : string) : bool :=
  forallb isSpace (list_ascii_of_string s).

Lemma trimLeft_allSpace t : allSpace t = true -> trimLeft t = EmptyString.
Proof.
  induction t as [|c t IH]; [reflexivity|]. unfold allSpace. cbn.
  intros H. apply andb_prop in H as [Hc Ht]. rewrite Hc. now apply IH.
Qed.

Lemma trimRight_allSpace t : allSpace t = true -> trimRight t = EmptyString.
Proof.
  induction t as [|c t IH]; [reflexivity|]. unfold allSpace. cbn.
  intros H. apply andb_prop in H as [Hc Ht]. rewrite (IH Ht). now rewrite Hc.
Qed.

Lemma trimRight_trailing s t :
  allSpace t = true -> trimRight (s +:+ t) = trimRight s.
Proof.
  intros Ht. induction s as [|c s IH].
  - now apply trimRight_allSpace.
  - change (String c s +:+ t) with (String c (s +:+ t)).
    cbn [trimRight]. now rewrite IH.
Qed.

(** White space at the end of the text, such as the newline that ends the
    listing, does not count. *)
Lemma TrimSpace_trailing s t :
  allSpace t = true -> TrimSpace (s +:+ t) = TrimSpace s.
Proof.
  intros Ht. unfold TrimSpace. induction s as [|c s IH].
  - change (EmptyString +:+ t) with t. now rewrite (trimLeft_allSpace t Ht).
  - change (String c s +:+ t) with (String c (s +:+ t)). cbn [trimLeft].
    destruct (isSpace c); [exact IH|].
    now rewrite <- (trimRight_trailing (String c s) t Ht).
Qed.

Lemma noNewline_trimLeft s : noNewline s = true -> noNewline (trimLeft s) = true.
Proof.
  induction s as [|c s IH]; [reflexivity|]. intros H. cbn.
  destruct (isSpace c); [|exact H].
  apply IH. unfold noNewline in *. cbn in H. now apply andb_prop in H as [_ H].
Qed.

Lemma noNewline_trimRight s : noNewline s = true -> noNewline (trimRight s) = true.
Proof.
  induction s as [|c s IH]; [reflexivity|]. unfold noNewline. cbn.
  intros H. apply andb_prop in H as [Hc Hs]. specialize (IH Hs).
  destruct (trimRight s) as [|d t].
  - destruct (isSpace c); [reflexivity|]. cbn. now rewrite Hc.
  - change (noNewline (String d t) = true) in IH. unfold noNewline in IH.
    cbn in *. now rewrite Hc.
Qed.

Lemma Split_noNewline s : noNewline s = true -> Split s newline = [s].
Proof.
  induction s as [|c s IH]; [reflexivity|]. unfold noNewline. cbn.
  intros H. apply andb_prop in H as [Hc Hs]. rewrite (IH Hs).
  apply negb_true_iff in Hc. now rewrite Hc.
Qed.

(** X18.  A listing of a single line, the header that [ps] prints when no
    process of that name runs, makes [killProc] return the error "No
    process named ... founded." without running any [kill]; white space
    after the line makes no difference. *)
Theorem killProc_header_only (psName : string) (sig : Z)
    (header trailing : string) :
  isASCII (header +:+ trailing) = true ->
  noNewline header = true ->
  allSpace trailing = true ->
  killProc psName sig (inl (header +:+ trailing))
  = ([], KillReturned
           (Some (ErrNew ("No process named " +:+ psName +:+ " founded.")))).
Proof.
  intros _ Hh Ht. unfold killProc. rewrite (TrimSpace_trailing _ _ Ht).
  rewrite Split_noNewline; [reflexivity|].
  unfold TrimSpace. now apply noNewline_trimRight, noNewline_trimLeft.
Qed.

Definition psHeader : string :=
  "USER     PID   PPID  VSIZE  RSS     WCHAN    PC        NAME".

Definition lineEnd : string := String newline EmptyString.

Lemma killProc_header_only_witness :
  killProc "minicap" SIGKILL (inl (psHeader +:+ lineEnd))
  = ([], KillReturned (Some (ErrNew "No process named minicap founded."))).
Proof.
  exact (killProc_header_only "minicap" SIGKILL psHeader lineEnd
           eq_refl eq_refl eq_refl).
Defined.

(** *** The rows that are killed *)

(** The [kill] command for a row, given the column of the PID. *)
Definition killCommand (sig : Z) (pidIndex : nat) (row : string) : list string :=
  ["kill"; "-" +:+ fmt_d sig;
   match Fields row !! pidIndex with Some pid => pid | None => EmptyString end].

(** The rows that name the process. *)
Definition matching (psName : string) (rows : list string) : list string :=
  List.filter (fun row => Contains row psName) rows.

(** A row that can be killed: if it names the process, it has a field in
    the PID column. *)
Definition hasPid (psName : string) (pidIndex : nat) (row : string) : Prop :=
  Contains row psName = true -> is_Some (Fields row !! pidIndex).

Lemma killRows_all psName sig pidIndex rows :
  Forall (hasPid psName pidIndex) rows ->
  killRows psName ("-" +:+ fmt_d sig) pidIndex rows
  = (map (killCommand sig pidIndex) (matching psName rows), KillReturned None).
Proof.
  induction 1 as [|row rows Hrow _ IH]; [reflexivity|].
  cbn [killRows matching List.filter]. fold (matching psName rows).
  destruct (Contains row psName) eqn:E; cbn [negb]; [|exact IH].
  destruct (Hrow E) as [pid Hpid]. rewrite Hpid, IH.
  cbn [map]. unfold killCommand at 2. now rewrite Hpid.
Qed.

Lemma killRows_short_row psName sig pidIndex rows1 row rows2 :
  Forall (hasPid psName pidIndex) rows1 ->
  Contains row psName = true ->
  Fields row !! pidIndex = None ->
  killRows psName ("-" +:+ fmt_d sig) pidIndex (rows1 ++ row :: rows2)
  = (map (killCommand sig pidIndex) (matching psName rows1), KillPanic).
Proof.
  intros H Hrow Hshort. induction H as [|r rows1 Hr _ IH].
  - cbn. now rewrite Hrow, Hshort.
  - cbn [app killRows matching List.filter]. fold (matching psName rows1).
    destruct (Contains r psName) eqn:E; cbn [negb]; [|exact IH].
    destruct (Hr E) as [pid Hpid]. rewrite Hpid, IH.
    cbn [map]. unfold killCommand at 2. now rewrite Hpid.
Qed.

Lemma killProc_rows psName sig out header row rows :
  Split (TrimSpace out) newline = header :: row :: rows ->
  killProc psName sig (inl out)
  = killRows psName ("-" +:+ fmt_d sig) (findPID (Fields header) 0) (row :: rows).
Proof. intros H. unfold killProc. now rewrite H. Qed.

(** X19.  On a listing of a header and rows, [killProc] runs one [kill]
    per row whose text contains the process name, in the order of the
    listing, with the field of that row in the column of the header's
    first "PID" as its target, and returns nil.  The header itself is
    never a target.  (Each such row is assumed to reach that column.) *)
Theorem killProc_kills_matching_rows (psName : string) (sig : Z)
    (out header row : string) (rows : list string) :
  isASCII out = true ->
  Split (TrimSpace out) newline = header :: row :: rows ->
  Forall (hasPid psName (findPID (Fields header) 0)) (row :: rows) ->
  killProc psName sig (inl out)
  = (map (killCommand sig (findPID (Fields header) 0))
         (matching psName (row :: rows)),
     KillReturned None).
Proof.
  intros _ Hl Hrows. rewrite (killProc_rows _ _ _ _ _ _ Hl).
  now apply killRows_all.
Qed.

Definition listing : string :=
  "USER     PID   PPID  VSIZE  RSS     WCHAN    PC        NAME
shell     9355  1     12345  1234    ffffffff 00000000 S minicap
shell     9400  1     23456  2345    ffffffff 00000000 S slow-minicap
".

Lemma killProc_kills_matching_rows_witness :
  killProc "minicap" SIGKILL (inl listing)
  = ([["kill"; "-9"; "9355"]; ["kill"; "-9"; "9400"]], KillReturned None).
Proof.
  assert (Split (TrimSpace listing) newline
          = psHeader
            :: "shell     9355  1     12345  1234    ffffffff 00000000 S minicap"
            :: ["shell     9400  1     23456  2345    ffffffff 00000000 S slow-minicap"])
    as Hl by reflexivity.
  refine (killProc_kills_matching_rows "minicap" SIGKILL listing _ _ _
            eq_refl Hl _).
  repeat constructor; intros _; vm_compute; eauto.
Defined.


(** X20.  A row that contains the process name but has no field in the
    PID column makes [killProc] panic on [fields[pidIndex]]: the rows
    before it have been killed, the rows after it never are. *)
Theorem killProc_short_row_panics (psName : string) (sig : Z)
    (out header row : string) (rows1 rows2 : list string) :
  isASCII out = true ->
  Split (TrimSpace out) newline = header :: rows1 ++ row :: rows2 ->
  Forall (hasPid psName (findPID (Fields header) 0)) rows1 ->
  Contains row psName = true ->
  (length (Fields row) <= findPID (Fields header) 0)%nat ->
  killProc psName sig (inl out)
  = (map (killCommand sig (findPID (Fields header) 0)) (matching psName rows1),
     KillPanic).
Proof.
  intros _ Hl Hrows Hrow Hshort.
  assert (killProc psName sig (inl out)
          = killRows psName ("-" +:+ fmt_d sig) (findPID (Fields header) 0)
                     (rows1 ++ row :: rows2)) as ->.
  { unfold killProc. rewrite Hl. now destruct rows1. }
  apply killRows_short_row; auto.
  now apply lookup_ge_None.
Qed.

(** A listing in which the second row is cut short. *)
Definition cutListing : string :=
  "USER PID NAME
shell 9355 minicap
minicap
shell 9400 minicap".

Lemma killProc_short_row_panics_witness :
  killProc "minicap" SIGKILL (inl cutListing)
  = ([["kill"; "-9"; "9355"]], KillPanic).
Proof.
  assert (Split (TrimSpace cutListing) newline
          = "USER PID NAME"
            :: ["shell 9355 minicap"] ++ "minicap" :: ["shell 9400 minicap"])
    as Hl by reflexivity.
  refine (killProc_short_row_panics "minicap" SIGKILL cutListing _ _ _ _
            eq_refl Hl _ eq_refl _).
  - repeat constructor. intros _. vm_compute. eauto.
  - vm_compute. lia.
Defined.

Lemma findPID_from (pre post : list string) (k : nat) :
  ~ In "PID" pre -> findPID (pre ++ "PID" :: post) k = (k + length pre)%nat.
Proof.
  revert k. induction pre as [|f pre IH]; intros k Hn.
  - cbn. lia.
  - cbn [app findPID length]. destruct (String.eqb_spec f "PID") as [->|Hne].
    + elim Hn. now left.
    + rewrite IH; [lia|]. intros H. apply Hn. now right.
Qed.

Lemma findPID_none (fields : list string) (k : nat) :
  ~ In "PID" fields -> findPID fields k = 0%nat.
Proof.
  revert k. induction fields as [|f fields IH]; intros k Hn; [reflexivity|].
  cbn [findPID]. destruct (String.eqb_spec f "PID") as [->|Hne].
  - elim Hn. now left.
  - apply IH. intros H. apply Hn. now right.
Qed.

(** X21.  The PID column is that of the first header field that is
    exactly "PID"; a header without such a field leaves the column at 0,
    so that the first field of each matching row is what gets killed. *)
Theorem pid_column (header : string) :
  (forall pre post,
      Fields header = pre ++ "PID" :: post -> ~ In "PID" pre ->
      findPID (Fields header) 0 = length pre) /\
  (~ In "PID" (Fields header) ->
   findPID (Fields header) 0 = 0%nat /\
   forall psName sig out row rows,
     isASCII out = true ->
     Split (TrimSpace out) newline = header :: row :: rows ->
     Forall (hasPid psName 0) (row :: rows) ->
     killProc psName sig (inl out)
     = (map (killCommand sig 0) (matching psName (row :: rows)),
        KillReturned None)).
Proof.
  split.
  - intros pre post -> Hn. now rewrite findPID_from.
  - intros Hn. pose proof (findPID_none (Fields header) 0 Hn) as H0.
    split; [exact H0|].
    intros psName sig out row rows _ Hl Hrows.
    rewrite (killProc_rows _ _ _ _ _ _ Hl), H0. now apply killRows_all.
Qed.

(** A listing whose header names the column "PROCESS_ID". *)
Definition otherHeader : string :=
  "USER PROCESS_ID NAME
shell 9355 minicap".

Lemma pid_column_witness :
  findPID (Fields psHeader) 0 = 1%nat /\
  killProc "minicap" SIGKILL (inl otherHeader)
  = ([["kill"; "-9"; "shell"]], KillReturned None).
Proof.
  split.
  - apply (proj1 (pid_column psHeader) ["USER"]
             ["PPID"; "VSIZE"; "RSS"; "WCHAN"; "PC"; "NAME"]).
    + reflexivity.
    + intros [H|[]]. discriminate.
  - assert (~ In "PID" (Fields "USER PROCESS_ID NAME")) as Hn.
    { vm_compute. intros [H|[H|[H|[]]]]; discriminate. }
    assert (Split (TrimSpace otherHeader) newline
            = "USER PROCESS_ID NAME" :: "shell 9355 minicap" :: []) as Hl
      by reflexivity.
    refine (proj2 (proj2 (pid_column "USER PROCESS_ID NAME") Hn)
              "minicap" SIGKILL otherHeader _ _ eq_refl Hl _).
    repeat constructor. intros _. vm_compute. eauto.
Defined.

End ProcessTable.

(** ** Stopping: the reader, and a stop too many *)

Module StopFacts.

(** X22.  A [Stop] of a reader whose task is alive, at either wait point
    and whatever is left of the retry budget, returns nil: the task takes
    the stop and ends with no error and no further dial, the connection is
    closed when there is one, the queue keeps its frames, and no later
    event changes anything. *)
Theorem reader_Stop_ends_task (s : Reader.jpgTcpSucker) (w : World)
    (st : Reader.loop_state) :
  inflight (Reader.mix s) = false ->
  Reader.loop s = Some st ->
  Reader.quitC s = Some 0%nat ->
  snd (fst (Reader.Stop s w)) = Returned None /\
  snd (Reader.Stop s w) = (if Reader.conn s then do ActCloseConn w else w) /\
  Reader.loop (fst (fst (Reader.Stop s w))) = None /\
  Reader.mix (fst (fst (Reader.Stop s w))) = mkMixins false (Some None) /\
  Reader.C (fst (fst (Reader.Stop s w))) = Reader.C s /\
  Reader.quitC (fst (fst (Reader.Stop s w))) = Some 0%nat /\
  forall evs w',
    Reader.handleAll evs (fst (fst (Reader.Stop s w))) w'
    = (fst (fst (Reader.Stop s w)), w').
Proof.
  intros Hi Hl Hq.
  assert (Reader.Stop s w
          = (Reader.set_mix (mkMixins false (Some None))
               (Reader.set_loop None s),
             Returned None,
             if Reader.conn s then do ActCloseConn w else w)) as ->.
  { unfold Reader.Stop, safeDo. rewrite Hi.
    cbn [Reader.quitC Reader.set_mix]. rewrite Hq.
    cbn [Supervisor.sendQuit Nat.ltb Nat.leb]. unfold bind.
    erewrite ReaderFacts.handle_quit
      by (cbn [Reader.loop Reader.set_quitC Reader.set_mix]; exact Hl).
    destruct s as [p c q fs sp x l]. cbn in Hq. subst q. cbn.
    now destruct c. }
  cbn [fst snd]. split; [reflexivity|]. split; [reflexivity|].
  split; [reflexivity|]. split; [reflexivity|]. split; [reflexivity|].
  split; [exact Hq|].
  intros evs w'. now apply ReaderFacts.handleAll_dead.
Qed.

(** A reader on its fourth connection, waiting for the timer with one
    frame in its queue. *)
Definition connected : Reader.jpgTcpSucker :=
  {| Reader.port := 1717; Reader.conn := true; Reader.quitC := Some 0%nat;
     Reader.C := [ReaderFacts.jpegFrame];
     Reader.forwardSpec := mkForwardSpec FProtocolAbstract "minicap";
     Reader.mix := mkMixins false None; Reader.spawned := false;
     Reader.loop := Some (Reader.mkLoop 7 Reader.WaitTimer (Some ErrEOF)) |}.

Lemma reader_Stop_ends_task_witness :
  snd (fst (Reader.Stop connected SupervisorFacts.emptyWorld)) = Returned None /\
  snd (Reader.Stop connected SupervisorFacts.emptyWorld)
  = do ActCloseConn SupervisorFacts.emptyWorld /\
  Reader.C (fst (fst (Reader.Stop connected SupervisorFacts.emptyWorld)))
  = [ReaderFacts.jpegFrame].
Proof.
  pose proof (reader_Stop_ends_task connected SupervisorFacts.emptyWorld
                (Reader.mkLoop 7 Reader.WaitTimer (Some ErrEOF))
                eq_refl eq_refl eq_refl) as (H1 & H2 & _ & _ & H5 & _).
  split; [exact H1|split; [exact H2|exact H5]].
Defined.

(** X23.  Once the process has ended on its own, a first [Stop] of the
    supervisor returns the terminal error and leaves its stop value in
    [quitC]; a second [Stop] then never returns: the channel is full and
    nobody receives.  It kills nothing. *)
Theorem second_Stop_after_exit_blocks (m : Supervisor.minicapDaemon)
    (w : World) (m1 : Supervisor.minicapDaemon) (w1 : World)
    (out : Supervisor.command_output) :
  Supervisor.Start m w = (m1, Returned None, w1) ->
  let (m2, w2) := Supervisor.handle (Supervisor.EvErrC out) m1 w1 in
  let m3 := fst (fst (Supervisor.Stop m2 w2)) in
  let w3 := snd (Supervisor.Stop m2 w2) in
  (exists e, snd (fst (Supervisor.Stop m2 w2)) = Returned (Some e)) /\
  snd (fst (Supervisor.Stop m3 w3)) = Blocked /\
  snd (Supervisor.Stop m3 w3) = w2.
Proof.
  intros H.
  destruct (LifecycleFacts.Start_success_state m w m1 w1 H)
    as (Hm & Hq & Hs & Hl).
  unfold Supervisor.handle. rewrite Hl, Hs.
  unfold Supervisor.runScreenCaptureWithRotate, Supervisor.killMinicap,
    Supervisor.killProc, Supervisor.launch, act, ret, bind. cbv beta iota.
  cbn [Supervisor.loopStep Supervisor.needRestart negb].
  assert (exists e, Supervisor.watch out = Some e) as [e He].
  { destruct out as [e|[|l ls] e]; cbn; eauto.
    destruct (negb (Supervisor.Contains l "PID:")); cbn; eauto. }
  rewrite He. cbv beta iota zeta.
  unfold Supervisor.Stop, safeDo, Supervisor.finish, ret.
  cbn [Supervisor.mix Supervisor.set_loop Supervisor.set_mix inflight
       doneError Supervisor.quitC].
  rewrite Hm, Hq. cbn. eauto.
Qed.

Lemma second_Stop_after_exit_blocks_witness :
  let m1 := fst (fst (Supervisor.Start Supervisor.newMinicapDaemon
                        ProvisionFacts.fastExeOnly)) in
  let w1 := snd (Supervisor.Start Supervisor.newMinicapDaemon
                   ProvisionFacts.fastExeOnly) in
  let (m2, w2) :=
    Supervisor.handle (Supervisor.EvErrC SupervisorFacts.processKilled) m1 w1 in
  let m3 := fst (fst (Supervisor.Stop m2 w2)) in
  let w3 := snd (Supervisor.Stop m2 w2) in
  (exists e, snd (fst (Supervisor.Stop m2 w2)) = Returned (Some e)) /\
  snd (fst (Supervisor.Stop m3 w3)) = Blocked /\
  snd (Supervisor.Stop m3 w3) = w2.
Proof.
  assert (snd (fst (Supervisor.Start Supervisor.newMinicapDaemon
                      ProvisionFacts.fastExeOnly))
          = Returned None) as H by (vm_compute; reflexivity).
  pose proof (second_Stop_after_exit_blocks Supervisor.newMinicapDaemon
                ProvisionFacts.fastExeOnly _ _ SupervisorFacts.processKilled
                (CoordinatorFacts.returned_eta _ _ H)) as H1.
  exact H1.
Defined.

End StopFacts.
